(** * govalidator: the error aggregate, the numeric coercion and the
    error-translation pipeline, embedded from the Go sources

    Strings are Go strings: sequences of bytes ([string] of [ascii]).
    Go maps with string keys are [gmap string _]; Go's [int], [int64] and
    [uint64] are [Z] with the 64-bit bounds written out where the code
    depends on them. *)

From Stdlib Require Import ZArith String Ascii List Bool Lia.
From stdpp Require Import gmap strings list fin_maps.

Local Open Scope string_scope.
Local Open Scope Z_scope.

(** ** Byte-level helpers *)

Definition byte_of (c : ascii) : Z := Z.of_nat (nat_of_ascii c).

Definition bytes (l : list nat) : string :=
  fold_right (fun n s => String (ascii_of_nat n) s) EmptyString l.

Fixpoint rev_string_onto (s acc : string) : string :=
  match s with
  | EmptyString => acc
  | String c s' => rev_string_onto s' (String c acc)
  end.

Definition rev_string (s : string) : string := rev_string_onto s EmptyString.

(** ** Go's [strings.TrimSpace]

    [strings.TrimSpace] removes leading and trailing runes for which
    [unicode.IsSpace] holds.  On a byte string these runes are exactly the
    following UTF-8 encodings: the six ASCII spaces, U+0085, U+00A0, U+1680,
    U+2000..U+200A, U+2028, U+2029, U+202F, U+205F and U+3000. *)
Module strings.

Definition asciiSpace (c : ascii) : bool :=
  let b := byte_of c in
  (b =? 9) || (b =? 10) || (b =? 11) || (b =? 12) || (b =? 13) || (b =? 32).

(** two-byte encodings: C2 85 (U+0085) and C2 A0 (U+00A0) *)
Definition space2 (c1 c2 : ascii) : bool :=
  (byte_of c1 =? 194) && ((byte_of c2 =? 133) || (byte_of c2 =? 160)).

(** three-byte encodings of the remaining white-space runes *)
Definition space3 (c1 c2 c3 : ascii) : bool :=
  let b1 := byte_of c1 in
  let b2 := byte_of c2 in
  let b3 := byte_of c3 in
  ((b1 =? 225) && (b2 =? 154) && (b3 =? 128))
  || ((b1 =? 226) && (b2 =? 128)
      && (((128 <=? b3) && (b3 <=? 138)) || (b3 =? 168) || (b3 =? 169)
          || (b3 =? 175)))
  || ((b1 =? 226) && (b2 =? 129) && (b3 =? 159))
  || ((b1 =? 227) && (b2 =? 128) && (b3 =? 128)).

(** [TrimLeftFunc s unicode.IsSpace] *)
Fixpoint TrimLeft (s : string) : string :=
  match s with
  | EmptyString => EmptyString
  | String c1 s1 =>
      if asciiSpace c1 then TrimLeft s1
      else
        match s1 with
        | EmptyString => s
        | String c2 s2 =>
            if space2 c1 c2 then TrimLeft s2
            else
              match s2 with
              | EmptyString => s
              | String c3 s3 =>
                  if space3 c1 c2 c3 then TrimLeft s3 else s
              end
        end
  end.

(** [TrimRightFunc] read on the reversed string: the last rune is a space
    when the string ends with one of the encodings above. *)
Fixpoint TrimLeftRev (s : string) : string :=
  match s with
  | EmptyString => EmptyString
  | String c1 s1 =>
      if asciiSpace c1 then TrimLeftRev s1
      else
        match s1 with
        | EmptyString => s
        | String c2 s2 =>
            if space2 c2 c1 then TrimLeftRev s2
            else
              match s2 with
              | EmptyString => s
              | String c3 s3 =>
                  if space3 c3 c2 c1 then TrimLeftRev s3 else s
              end
        end
  end.

Definition TrimRight (s : string) : string :=
  rev_string (TrimLeftRev (rev_string s)).

Definition TrimSpace (s : string) : string := TrimRight (TrimLeft s).

End strings.

(** ** Go's [strconv.ParseInt (s, 10, 64)] *)
Module strconv.

Inductive NumError := ErrSyntax | ErrRange.

Definition maxUint64 : Z := 2 ^ 64 - 1.

(** [int64(un)] for an unsigned 64-bit [un], and negation on [int64] *)
Definition wrap_int64 (z : Z) : Z := (z + 2 ^ 63) mod 2 ^ 64 - 2 ^ 63.

(** the digit loop of [ParseUint] for base 10: a byte outside ['0'..'9']
    is a syntax error (letters give a digit value of 10 or more, which the
    base check rejects; the underscore is accepted for base 0 only) *)
Fixpoint parseUintLoop (s : string) (n : Z) : Z * option NumError :=
  match s with
  | EmptyString => (n, None)
  | String c s' =>
      let b := byte_of c in
      if (48 <=? b) && (b <=? 57) then
        let d := b - 48 in
        if n >=? maxUint64 / 10 + 1 then (maxUint64, Some ErrRange)
        else
          let n1 := n * 10 + d in
          if n1 >? maxUint64 then (maxUint64, Some ErrRange)
          else parseUintLoop s' n1
      else (0, Some ErrSyntax)
  end.

Definition ParseUint (s : string) : Z * option NumError :=
  match s with
  | EmptyString => (0, Some ErrSyntax)
  | _ => parseUintLoop s 0
  end.

Definition ParseInt (s : string) : Z * option NumError :=
  match s with
  | EmptyString => (0, Some ErrSyntax)
  | String c rest =>
      let '(neg, s1) :=
        if byte_of c =? 43 then (false, rest)
        else if byte_of c =? 45 then (true, rest)
        else (false, s) in
      match ParseUint s1 with
      | (_, Some ErrSyntax) => (0, Some ErrSyntax)
      | (un, _) =>
          let cutoff := 2 ^ 63 in
          if negb neg && (un >=? cutoff) then (cutoff - 1, Some ErrRange)
          else if neg && (un >? cutoff) then (- cutoff, Some ErrRange)
          else
            let n := wrap_int64 un in
            (if neg then wrap_int64 (- n) else n, None)
      end
  end.

(** [strconv.Atoi] with its error discarded, as the callers do; on a
    64-bit platform it returns what [ParseInt (s, 10, 0)] returns *)
Definition Atoi (s : string) : Z := fst (ParseInt s).

End strconv.

(** ** utils.go *)

Definition resolveParams (fallback : string) (vals : list string) : string :=
  match vals with
  | v0 :: _ =>
      if (strings.TrimSpace v0 =? "")%string then fallback
      else strings.TrimSpace v0
  | [] => fallback
  end.

(** ** The engine's errors (github.com/go-playground/validator)

    A violation record is what the engine's [FieldError] interface exposes
    to this package: its getters are read, nothing else. *)
Module FieldError.
Record t : Type := Build {
  Field : string;
  StructField : string;
  Tag : string;
  Param : string;
  Error : string
}.
End FieldError.

(** A non-nil Go [error] returned by the engine: either the slice type
    [validator.ValidationErrors], or a value of any other dynamic type
    (for instance [*validator.InvalidValidationError]), kept by its text. *)
Inductive error : Type :=
  | ValidationErrors (errs : list FieldError.t)
  | OtherError (text : string).

(** ** error.go *)

Record vErrors : Type := Build_vErrors {
  interr : option error;
  valerr : gmap string (gmap string string)
}.

Definition NewError (err : option error) : vErrors :=
  {| interr := err; valerr := ∅ |}.

Definition NewEmptyError : vErrors :=
  {| interr := None; valerr := ∅ |}.

Definition HasInternalError (e : vErrors) : bool :=
  match interr e with Some _ => true | None => false end.

Definition HasValidationErrors (e : vErrors) : bool :=
  (0 <? size (valerr e))%nat.

Definition HasError (e : vErrors) : bool :=
  HasInternalError e || HasValidationErrors e.

Definition IsFailed (e : vErrors) (field : string) : bool :=
  match valerr e !! field with Some _ => true | None => false end.

(** [e.valerr[field][rule]]: a missing field yields the nil map, in which
    no rule exists. *)
Definition IsFailedOn (e : vErrors) (field rule : string) : bool :=
  match valerr e !! field with
  | Some errs => match errs !! rule with Some _ => true | None => false end
  | None => false
  end.

Definition InternalError (e : vErrors) : option error := interr e.

Definition Errors (e : vErrors) : gmap string (gmap string string) := valerr e.

(** [Messages] and [Rules] append in the iteration order of the inner map;
    Go leaves that order unspecified, [map_to_list] fixes one. *)
Definition Messages (e : vErrors) : gmap string (list string) :=
  (fun errs : gmap string string => (map_to_list errs).*2) <$> valerr e.

Definition Rules (e : vErrors) : gmap string (list string) :=
  (fun errs : gmap string string => (map_to_list errs).*1) <$> valerr e.

Definition AddError (e : vErrors) (field rule : string)
    (message : list string) : vErrors :=
  let msg := resolveParams "" message in
  match valerr e !! field with
  | Some errs =>
      {| interr := interr e;
         valerr := <[field := <[rule := msg]> errs]> (valerr e) |}
  | None =>
      {| interr := interr e;
         valerr := <[field := {[rule := msg]}]> (valerr e) |}
  end.

(** A run of [AddError] calls, in order. *)
Definition AddErrors (e : vErrors)
    (calls : list (string * string * list string)) : vErrors :=
  foldl (fun acc c => AddError acc c.1.1 c.1.2 c.2) e calls.

(** [String]: one line per field, then one indented line per rule, in the
    iteration order of the maps ([map_to_list] fixes one). *)
Definition newline : string := String (ascii_of_nat 10) EmptyString.

Definition ruleLine (rm : string * string) : string :=
  "    " ++ rm.1 ++ ": " ++ rm.2 ++ newline.

Definition fieldBlock (fe : string * gmap string string) : string :=
  fe.1 ++ ":" ++ newline
    ++ fold_right (fun rm acc => ruleLine rm ++ acc) "" (map_to_list fe.2).

Definition vErrors_String (e : vErrors) : string :=
  fold_right (fun fe acc => fieldBlock fe ++ acc) "" (map_to_list (valerr e)).

(** ** Go's [big.Int.SetString (s, 10)]: an optional sign followed by one
    or more decimal digits, and nothing else. *)
Module big.

Fixpoint digitsValue (s : string) (acc : Z) : option Z :=
  match s with
  | EmptyString => Some acc
  | String c s' =>
      let b := byte_of c in
      if (48 <=? b) && (b <=? 57) then digitsValue s' (acc * 10 + (b - 48))
      else None
  end.

Definition unsignedValue (s : string) : option Z :=
  match s with
  | EmptyString => None
  | _ => digitsValue s 0
  end.

Definition SetString (s : string) : option Z :=
  match s with
  | EmptyString => None
  | String c rest =>
      if byte_of c =? 43 then unsignedValue rest
      else if byte_of c =? 45 then Z.opp <$> unsignedValue rest
      else unsignedValue s
  end.

End big.

(** ** funcs/funcs.go: IsValidIranianNationalCode *)
Module funcs.

Definition isDigit (c : ascii) : bool :=
  (48 <=? byte_of c) && (byte_of c <=? 57).

(** [regexp.MustCompile(`^[0-9]{10}$`).MatchString]: ten bytes, each an
    ASCII digit, and nothing else. *)
Definition matchTenDigits (s : string) : bool :=
  (String.length s =? 10)%nat && forallb isDigit (list_ascii_of_string s).

(** [string(nationalCode[i])]: the one-byte string of an ASCII byte, the
    only kind of byte that passes the digit test before the loop *)
Definition byteAt (s : string) (i : nat) : string :=
  match String.get i s with
  | Some c => String c EmptyString
  | None => EmptyString
  end.

(** the loop [for i := 0; i < 9; i++], run for [todo] more iterations *)
Fixpoint checksumLoop (nationalCode : string) (todo : nat) (i : nat)
    (sum : Z) : Z :=
  match todo with
  | O => sum
  | S todo' =>
      let digit := strconv.Atoi (byteAt nationalCode i) in
      checksumLoop nationalCode todo' (S i)
        (sum + digit * (10 - Z.of_nat i))
  end.

Definition IsValidIranianNationalCode (nationalCode : string) : bool :=
  if negb (String.length nationalCode =? 10)%nat then false
  else if negb (matchTenDigits nationalCode) then false
  else
    let sum := checksumLoop nationalCode 9 0 0 in
    let remainder := Z.rem sum 11 in
    let checkDigit := strconv.Atoi (byteAt nationalCode 9) in
    if remainder <? 2 then checkDigit =? remainder
    else checkDigit =? 11 - remainder.

Definition allDigits (s : string) : bool :=
  forallb isDigit (list_ascii_of_string s).

(** [^0[1-9][0-9]{9}$] *)
Definition IsValidIranianPhone (phone : string) : bool :=
  match phone with
  | String c0 (String c1 rest) =>
      (byte_of c0 =? 48) && ((49 <=? byte_of c1) && (byte_of c1 <=? 57))
      && (String.length rest =? 9)%nat && allDigits rest
  | _ => false
  end.

(** [^09[0-9]{9}$] *)
Definition IsValidIranianMobile (mobile : string) : bool :=
  match mobile with
  | String c0 (String c1 rest) =>
      (byte_of c0 =? 48) && (byte_of c1 =? 57)
      && (String.length rest =? 9)%nat && allDigits rest
  | _ => false
  end.

(** [^[0-9]{10}$] *)
Definition IsValidIranianPostalCode (postalCode : string) : bool :=
  matchTenDigits postalCode.

(** [^[0-9]{1,10}$] *)
Definition IsValidIranianIDNumber (id : string) : bool :=
  (1 <=? String.length id)%nat && (String.length id <=? 10)%nat
  && allDigits id.

(** [^[0-9]{16}$] *)
Definition matchSixteenDigits (s : string) : bool :=
  (String.length s =? 16)%nat && allDigits s.

(** the loop [for i := len(cardNumber) - 1; i >= 0; i--], with [i + 1]
    iterations left *)
Fixpoint luhnLoop (cardNumber : string) (iplus1 : nat) (sum : Z)
    (alternate : bool) : Z :=
  match iplus1 with
  | O => sum
  | S i =>
      let n := strconv.Atoi (byteAt cardNumber i) in
      let n :=
        if alternate then
          let n2 := n * 2 in
          if n2 >? 9 then n2 - 9 else n2
        else n in
      luhnLoop cardNumber i (sum + n) (negb alternate)
  end.

Definition IsValidIranianBankCard (cardNumber : string) : bool :=
  if negb (matchSixteenDigits cardNumber) then false
  else
    let sum := luhnLoop cardNumber (String.length cardNumber) 0 false in
    Z.rem sum 10 =? 0.

(** [^IR[0-9]{24}$] *)
Definition matchIBAN (s : string) : bool :=
  match s with
  | String c0 (String c1 rest) =>
      (byte_of c0 =? 73) && (byte_of c1 =? 82)
      && (String.length rest =? 24)%nat && allDigits rest
  | _ => false
  end.

(** [iban[2:]] for a string of two bytes or more *)
Definition dropTwo (s : string) : string :=
  match s with
  | String _ (String _ rest) => rest
  | _ => EmptyString
  end.

Definition IsValidIranianIBAN (iban : string) : bool :=
  let iban := if negb (String.prefix "IR" iban) then "IR" ++ iban else iban in
  if negb (matchIBAN iban) then false
  else
    let ibanNumeric := dropTwo iban ++ "1827" in
    match big.SetString ibanNumeric with
    | None => false
    | Some bigInt => bigInt mod 97 =? 1
    end.

End funcs.

(** ** Collaborators of driver.go *)

(** Go's [float64] with the two operations the driver uses:
    [strconv.ParseFloat (s, 64)] and the conversion [int(f)]. *)
Class GoFloat : Type := {
  float64 : Type;
  ParseFloat : string -> float64 * option strconv.NumError;
  int_of_float64 : float64 -> Z
}.

(** A value of type [any] as the driver builds it for the rule parameter:
    the original string, an [int64] or a [float64]. *)
Inductive any_param `{GoFloat} : Type :=
  | AnyString (s : string)
  | AnyInt64 (i : Z)
  | AnyFloat64 (f : float64).

(** [goi18n.Translator], the two methods the driver calls.  The translator
    is a shared mutable object; [AddMessage] returns its next state. *)
Class Translator `{GoFloat} (T : Type) : Type := {
  PluralOption : Type;
  AddMessage : T -> string -> string -> string -> list PluralOption -> T;
  Plural : T -> string -> string -> Z -> gmap string any_param -> string
}.

(** The validated value, of type [any], seen through the two type
    assertions of [translate]: [value.(Translatable)] and
    [value.(TranslatableField)].  [None] is a failed assertion. *)
Record Value : Type := Build_Value {
  TranslateError : option (string -> string -> string -> string);
  TranslateTitle : option (string -> string -> string)
}.

Section Driver.
Context `{GoFloat} {T : Type} `{!Translator T}.

(** *** utils.go: parseNumeric *)
Definition parseNumeric (v : string) : option Z * option float64 :=
  match strconv.ParseInt v with
  | (i, Some _) => (Some i, None)
  | (_, None) =>
      match ParseFloat v with
      | (f, Some _) => (None, Some f)
      | (_, None) => (None, None)
      end
  end.

(** *** Calls made to the collaborators, in program order *)
Inductive Call : Type :=
  | CallAddMessage (locale key message : string)
      (options : list PluralOption)
  | CallPlural (locale key : string) (count : Z)
      (values : gmap string any_param)
  | CallTranslateError (locale rule field : string)
  | CallTranslateTitle (locale field : string).

Definition M (A : Type) : Type := A * list Call.

Definition ret {A} (a : A) : M A := (a, []).

Definition bind {A B} (m : M A) (k : A -> M B) : M B :=
  let '(a, l1) := m in
  let '(b, l2) := k a in
  (b, (l1 ++ l2)%list).

Definition invoke {A} (c : Call) (result : A) : M A := (result, [c]).

Definition result {A} (m : M A) : A := fst m.
Definition calls {A} (m : M A) : list Call := snd m.

Local Notation "'do' x <- m ; k" := (bind m (fun x => k))
  (at level 10, x name, m at level 100, k at level 200).

Fixpoint foldM {A B} (f : B -> A -> M B) (l : list A) (b : B) : M B :=
  match l with
  | [] => ret b
  | a :: l' => do b' <- f b a; foldM f l' b'
  end.

(** *** driver.go *)
Record I18nValidator : Type := Build_I18nValidator {
  prefix : string;
  translator : option T
}.

(** options.go: an option modifies the validator under construction. *)
Definition Options : Type := I18nValidator -> I18nValidator.

Definition WithTranslator (tr : option T) (prefix0 : string) : Options :=
  let prefix1 := strings.TrimSpace prefix0 in
  fun iv => {| translator := tr; prefix := prefix1 |}.

(** validator.go: NewValidator.  The engine handle is kept by the Go
    struct and used by the entry points only; the pipeline never reads
    it. *)
Definition NewValidator (options : list Options) : I18nValidator :=
  foldl (fun v opt => opt v) {| prefix := ""; translator := None |} options.

Definition AddTranslation (v : I18nValidator)
    (locale rule message : string) (options : list PluralOption)
    : M I18nValidator :=
  let rule := strings.TrimSpace rule in
  match (rule =? "")%string, translator v with
  | false, Some tr =>
      if (prefix v =? "")%string then
        do tr' <- invoke (CallAddMessage locale rule message options)
                    (AddMessage tr locale rule message options);
        ret {| prefix := prefix v; translator := Some tr' |}
      else
        let key := prefix v ++ "." ++ rule in
        do tr' <- invoke (CallAddMessage locale key message options)
                    (AddMessage tr locale key message options);
        ret {| prefix := prefix v; translator := Some tr' |}
  | _, _ => ret v
  end.

Definition translate (v : I18nValidator)
    (locale name rule field : string) (param : any_param)
    (value : Value) (count : Z) : M string :=
  match translator v with
  | None => ret ""
  | Some tr =>
      let main : M string :=
        let rule := if negb (prefix v =? "")%string
                    then prefix v ++ "." ++ rule else rule in
        do name <-
          match TranslateTitle value with
          | Some hook =>
              do n <- invoke (CallTranslateTitle locale field)
                        (hook locale field);
              ret (if negb (n =? "")%string then n else name)
          | None => ret name
          end;
        let values : gmap string any_param :=
          <["param" := param]> (<["field" := AnyString name]> ∅) in
        invoke (CallPlural locale rule count values)
          (Plural tr locale rule count values) in
      match TranslateError value with
      | Some hook =>
          do res <- invoke (CallTranslateError locale rule field)
                      (hook locale rule field);
          if negb (res =? "")%string then ret res else main
      | None => main
      end
  end.

(** The block at the head of both loops: the parameter handed to the
    translator and the plural count derived from it. *)
Definition paramAndCount (p : string) : any_param * Z :=
  match parseNumeric p with
  | (Some i, _) => (AnyInt64 i, i)
  | (None, Some f) => (AnyFloat64 f, int_of_float64 f)
  | (None, None) => (AnyString p, 0)
  end.

Definition structStep (v : I18nValidator) (locale : string)
    (value : Value) (res : vErrors) (field : FieldError.t) : M vErrors :=
  let '(param, count) := paramAndCount (FieldError.Param field) in
  match translator v with
  | None =>
      ret (AddError res (FieldError.Field field) (FieldError.Tag field)
             [FieldError.Error field])
  | Some _ =>
      do msg <- translate v locale (FieldError.Field field)
                  (FieldError.Tag field) (FieldError.StructField field)
                  param value count;
      ret (AddError res (FieldError.Field field) (FieldError.Tag field)
             [msg])
  end.

Definition parseStructErrors (v : I18nValidator) (locale : string)
    (value : Value) (err : option error) : M vErrors :=
  match err with
  | None => ret NewEmptyError
  | Some (ValidationErrors errs) =>
      foldM (structStep v locale value) errs NewEmptyError
  | Some other => ret (NewError (Some other))
  end.

Definition variableStep (v : I18nValidator) (locale name : string)
    (value : Value) (res : vErrors) (field : FieldError.t) : M vErrors :=
  let '(param, count) := paramAndCount (FieldError.Param field) in
  match translator v with
  | None =>
      ret (AddError res (FieldError.Field field) (FieldError.Tag field)
             [FieldError.Error field])
  | Some _ =>
      do msg <- translate v locale name (FieldError.Tag field) name
                  param value count;
      ret (AddError res name (FieldError.Tag field) [msg])
  end.

Definition parseVariableErrors (v : I18nValidator) (locale name : string)
    (value : Value) (err : option error) : M vErrors :=
  match err with
  | None => ret NewEmptyError
  | Some (ValidationErrors errs) =>
      foldM (variableStep v locale name value) errs NewEmptyError
  | Some other => ret (NewError (Some other))
  end.

End Driver.

Arguments I18nValidator T : clear implicits.

(** ** Vocabulary of the statements *)

(** [Errors()[F][R]], with presence *)
Definition lookupMessage (e : vErrors) (F R : string) : option string :=
  Errors e !! F ≫= (fun errs : gmap string string => errs !! R).

(** A string that begins (or, read backwards, ends) with a white-space
    rune, as [TrimSpace] sees it. *)
Definition startsWithSpace (s : string) : bool :=
  match s with
  | EmptyString => false
  | String c1 s1 =>
      strings.asciiSpace c1
      || match s1 with
         | EmptyString => false
         | String c2 s2 =>
             strings.space2 c1 c2
             || match s2 with
                | EmptyString => false
                | String c3 _ => strings.space3 c1 c2 c3
                end
         end
  end.

Definition startsWithSpaceRev (s : string) : bool :=
  match s with
  | EmptyString => false
  | String c1 s1 =>
      strings.asciiSpace c1
      || match s1 with
         | EmptyString => false
         | String c2 s2 =>
             strings.space2 c2 c1
             || match s2 with
                | EmptyString => false
                | String c3 _ => strings.space3 c3 c2 c1
                end
         end
  end.

(** what one iteration of the Luhn loop adds for a digit [n] *)
Definition luhnDigit (alternate : bool) (n : Z) : Z :=
  if alternate then
    let n2 := n * 2 in
    if n2 >? 9 then n2 - 9 else n2
  else n.

(** the value of a string of decimal digits *)
Definition decimal (s : string) : Z :=
  fold_left (fun acc c => acc * 10 + (byte_of c - 48))
    (list_ascii_of_string s) 0.

(** A message as the engine writes it: not empty and without white space
    at either end (the engine's [Error()] is the text [Key: '<namespace>'
    Error:Field validation for '<field>' failed on the '<tag>' tag]). *)
Definition trimmedNonEmpty (s : string) : Prop :=
  s <> "" /\ strings.TrimSpace s = s.

(** Every field of the aggregate has at least one rule. *)
Definition fieldsHaveRules (e : vErrors) : Prop :=
  forall F errs, valerr e !! F = Some errs -> errs <> ∅.

(** What one iteration of each loop hands to [AddError]. *)
Definition structEntry `{GoFloat} {T : Type} `{!Translator T}
    (v : I18nValidator T) (locale : string) (value : Value)
    (field : FieldError.t) : string * string * list string :=
  let pc := paramAndCount (FieldError.Param field) in
  (FieldError.Field field, FieldError.Tag field,
   [match translator v with
    | None => FieldError.Error field
    | Some _ =>
        result (translate v locale (FieldError.Field field)
                  (FieldError.Tag field) (FieldError.StructField field)
                  pc.1 value pc.2)
    end]).

Definition variableEntry `{GoFloat} {T : Type} `{!Translator T}
    (v : I18nValidator T) (locale name : string) (value : Value)
    (field : FieldError.t) : string * string * list string :=
  let pc := paramAndCount (FieldError.Param field) in
  match translator v with
  | None =>
      (FieldError.Field field, FieldError.Tag field,
       [FieldError.Error field])
  | Some _ =>
      (name, FieldError.Tag field,
       [result (translate v locale name (FieldError.Tag field) name
                  pc.1 value pc.2)])
  end.

(** The national-code rule in the words of its description: ten ASCII
    digits whose tenth equals the check digit of the first nine. *)
Module NationalCode.

Definition digitAt (s : string) (i : nat) : Z :=
  match String.get i s with
  | Some c => byte_of c - 48
  | None => 0
  end.

Definition weightedSum (s : string) : Z :=
  fold_right (fun i acc => digitAt s i * (10 - Z.of_nat i) + acc) 0
    (seq 0 9).

Definition checkDigit (s : string) : Z :=
  let remainder := weightedSum s mod 11 in
  if remainder <? 2 then remainder else 11 - remainder.

Definition tenDigits (s : string) : Prop :=
  String.length s = 10%nat /\
  Forall (fun c => 48 <= byte_of c <= 57) (list_ascii_of_string s).

Definition valid (s : string) : Prop :=
  tenDigits s /\ digitAt s 9 = checkDigit s.

End NationalCode.

(** ** Collaborators for the closed examples *)
Module Fixture.

(** A float stand-in for examples whose rule parameters are no numerals:
    [ParseFloat] is reached only after [ParseInt] has succeeded. *)
#[export] Instance noFloats : GoFloat := {|
  float64 := Z;
  ParseFloat := fun _ => (0, Some strconv.ErrSyntax);
  int_of_float64 := fun f => f
|}.

(** A translator that is a table of messages by locale and key; a key
    that was never registered yields the empty string. *)
#[export] Instance table : Translator (gmap (string * string) string) := {|
  PluralOption := string;
  AddMessage := fun t locale key message _ => <[(locale, key) := message]> t;
  Plural := fun t locale key _ _ => default "" (t !! (locale, key))
|}.

Definition emptyTable : gmap (string * string) string := ∅.

Definition plainValue : Value :=
  {| TranslateError := None; TranslateTitle := None |}.

(** a value implementing [Translatable] *)
Definition customValue : Value :=
  {| TranslateError := Some (fun _ _ _ => "custom");
     TranslateTitle := Some (fun _ _ => "Title") |}.

Definition required (field : string) : FieldError.t :=
  {| FieldError.Field := field;
     FieldError.StructField := field;
     FieldError.Tag := "required";
     FieldError.Param := "";
     FieldError.Error := "Key: '" ++ field
       ++ "' Error:Field validation for '" ++ field
       ++ "' failed on the 'required' tag" |}.

End Fixture.

(** * Theorems *)

(** ** Numeric coercion *)

Lemma parseNumeric_int_rejected `{GoFloat} (p : string) (i : Z)
    (e : strconv.NumError) :
  strconv.ParseInt p = (i, Some e) -> paramAndCount p = (AnyInt64 i, i).
Proof.
  intros Hp. unfold paramAndCount, parseNumeric. rewrite Hp. reflexivity.
Qed.

Lemma parseNumeric_int_accepted `{GoFloat} (p : string) (i : Z) :
  strconv.ParseInt p = (i, None) -> (parseNumeric p).1 = None.
Proof.
  intros Hp. unfold parseNumeric. rewrite Hp.
  destruct (ParseFloat p) as [f [e|]]; reflexivity.
Qed.

(** C1: the coercion does not do what the claim says.  The test on the
    integer parse is inverted: a parameter that is no integer yields the
    integer 0 with count 0 (["abc"] and ["5.7"]), and the integer ["5"]
    never yields the integer 5; it stays a string with count 0 unless the
    float parse of ["5"] fails. *)
Theorem C1_parseNumeric_inverted `{GoFloat} :
  paramAndCount "abc" = (AnyInt64 0, 0) /\
  paramAndCount "5.7" = (AnyInt64 0, 0) /\
  paramAndCount "5" =
    match ParseFloat "5" with
    | (f, Some _) => (AnyFloat64 f, int_of_float64 f)
    | (_, None) => (AnyString "5", 0)
    end /\
  paramAndCount "5" <> (AnyInt64 5, 5).
Proof.
  assert (H5 : paramAndCount "5" =
    match ParseFloat "5" with
    | (f, Some _) => (AnyFloat64 f, int_of_float64 f)
    | (_, None) => (AnyString "5", 0)
    end).
  { unfold paramAndCount, parseNumeric.
    replace (strconv.ParseInt "5") with (5, @None strconv.NumError)
      by (vm_compute; reflexivity).
    destruct (ParseFloat "5") as [f [e|]]; reflexivity. }
  split; [|split; [|split]].
  - apply parseNumeric_int_rejected with (e := strconv.ErrSyntax).
    vm_compute; reflexivity.
  - apply parseNumeric_int_rejected with (e := strconv.ErrSyntax).
    vm_compute; reflexivity.
  - exact H5.
  - rewrite H5. destruct (ParseFloat "5") as [f [e|]]; discriminate.
Qed.

(** ** The error aggregate *)

Lemma resolveParams_single (m : string) :
  resolveParams "" [m] = strings.TrimSpace m.
Proof.
  unfold resolveParams.
  destruct (String.eqb_spec (strings.TrimSpace m) "") as [->|]; reflexivity.
Qed.

Lemma lookupMessage_AddError_same e F R msgs :
  lookupMessage (AddError e F R msgs) F R = Some (resolveParams "" msgs).
Proof.
  unfold lookupMessage, Errors, AddError.
  destruct (valerr e !! F) as [errs|]; simpl;
    rewrite lookup_insert_eq; simpl.
  - apply lookup_insert_eq.
  - apply lookup_singleton_eq.
Qed.

Lemma lookupMessage_AddError_other e F R msgs F' R' :
  (F, R) <> (F', R') ->
  lookupMessage (AddError e F R msgs) F' R' = lookupMessage e F' R'.
Proof.
  intros Hne. unfold lookupMessage, Errors, AddError.
  destruct (decide (F = F')) as [<-|HF].
  - assert (R <> R') by congruence.
    destruct (valerr e !! F) as [errs|] eqn:HFe; simpl;
      rewrite lookup_insert_eq; simpl.
    + by rewrite lookup_insert_ne.
    + by rewrite lookup_singleton_ne.
  - destruct (valerr e !! F) as [errs|]; simpl;
      by rewrite lookup_insert_ne.
Qed.

Lemma AddError_twice e F R msgs1 msgs2 :
  AddError (AddError e F R msgs1) F R msgs2 = AddError e F R msgs2.
Proof.
  unfold AddError at 1 3.
  destruct (valerr e !! F) as [errs|] eqn:HFe.
  - unfold AddError. rewrite HFe. simpl. rewrite lookup_insert_eq.
    by rewrite !insert_insert_eq.
  - unfold AddError. rewrite HFe. simpl. rewrite lookup_insert_eq.
    rewrite insert_insert_eq. f_equal. f_equal.
    by rewrite insert_singleton_eq.
Qed.

(** C2: a nil engine error gives the empty aggregate, from both pipelines,
    and no collaborator is called. *)
Theorem C2_nil_error_empty_aggregate `{GoFloat} {T : Type} `{!Translator T}
    (v : I18nValidator T) (locale name : string) (value : Value) :
  let s := parseStructErrors v locale value None in
  let w := parseVariableErrors v locale name value None in
  (HasError (result s) = false /\ HasValidationErrors (result s) = false /\
   HasInternalError (result s) = false /\ calls s = []) /\
  (HasError (result w) = false /\ HasValidationErrors (result w) = false /\
   HasInternalError (result w) = false /\ calls w = []).
Proof. repeat split. Qed.

(** C3: an engine error that is no set of violation records is wrapped as
    the internal error of an aggregate without validation errors. *)
Theorem C3_other_error_is_internal `{GoFloat} {T : Type} `{!Translator T}
    (v : I18nValidator T) (locale name : string) (value : Value)
    (text : string) :
  let err := OtherError text in
  let s := result (parseStructErrors v locale value (Some err)) in
  let w := result (parseVariableErrors v locale name value (Some err)) in
  (HasInternalError s = true /\ InternalError s = Some err /\
   HasValidationErrors s = false /\ Errors s = ∅) /\
  (HasInternalError w = true /\ InternalError w = Some err /\
   HasValidationErrors w = false /\ Errors w = ∅).
Proof. repeat split. Qed.

(** C4 as stated fails: the stored message is not the second message
    itself when that message carries surrounding white space. *)
Lemma C4_second_message_is_trimmed :
  lookupMessage
    (AddError (AddError NewEmptyError "f" "r" ["a"]) "f" "r" [" b"])
    "f" "r" <> Some " b".
Proof. vm_compute. discriminate. Qed.

(** C4, amended: two [AddError] calls for the same field and rule leave the
    aggregate as the second call alone would, and the one message stored
    for the pair is the second message with its leading and trailing white
    space trimmed. *)
Theorem C4_last_write_wins (e : vErrors) (F R m1 m2 : string) :
  let e1 := AddError e F R [m1] in
  let e2 := AddError e1 F R [m2] in
  e2 = AddError e F R [m2] /\
  lookupMessage e2 F R = Some (strings.TrimSpace m2) /\
  size <$> (Errors e2 !! F) = size <$> (Errors e1 !! F).
Proof.
  cbv zeta. split; [apply AddError_twice|]. split.
  - rewrite lookupMessage_AddError_same. f_equal. apply resolveParams_single.
  - rewrite AddError_twice. unfold Errors, AddError.
    destruct (valerr e !! F) as [errs|] eqn:HFe; simpl;
      rewrite !lookup_insert_eq; simpl; f_equal.
    + destruct (errs !! R) as [m|] eqn:HR.
      * rewrite <- (insert_delete_id errs R m) by done.
        rewrite !insert_insert_eq.
        by rewrite !map_size_insert_None by apply lookup_delete_eq.
      * by rewrite !map_size_insert_None.
    + by rewrite !map_size_singleton.
Qed.

(** ** The translation resolver *)

(** C5: when a translator is configured and the value's [TranslateError]
    hook answers with a non-empty string, [translate] returns that string
    and the hook call, made with the bare rule name, is the only call: the
    global translator and the title hook are not reached. *)
Theorem C5_value_override_wins `{GoFloat} {T : Type} `{!Translator T}
    (v : I18nValidator T) (tr : T) (locale name rule field : string)
    (param : any_param) (value : Value) (count : Z)
    (hook : string -> string -> string -> string) :
  translator v = Some tr ->
  TranslateError value = Some hook ->
  hook locale rule field <> "" ->
  translate v locale name rule field param value count =
    (hook locale rule field, [CallTranslateError locale rule field]).
Proof.
  intros Htr Hhook Hres. unfold translate. rewrite Htr, Hhook.
  cbn [bind invoke].
  destruct (String.eqb_spec (hook locale rule field) "") as [E|_];
    [contradiction|].
  reflexivity.
Qed.

Section C5_example.
Import Fixture.

Lemma C5_witness :
  translate (NewValidator [WithTranslator (Some emptyTable) "v"])
    "en" "Name" "required" "Name" (AnyString "") customValue 0 =
  ("custom", [CallTranslateError "en" "required" "Name"]).
Proof.
  apply (C5_value_override_wins _ emptyTable "en" "Name" "required" "Name"
           (AnyString "") customValue 0 (fun _ _ _ => "custom"));
    [reflexivity | reflexivity | discriminate].
Defined.
End C5_example.

Lemma append_inj_l (p a b : string) : p ++ a = p ++ b -> a = b.
Proof. induction p as [|c p IH]; simpl; [done | intros [= E]; auto]. Qed.

(** The prefix a validator holds is the trimmed one. *)
Lemma NewValidator_WithTranslator `{GoFloat} {T : Type} `{!Translator T}
    (tr : option T) (p : string) :
  NewValidator [WithTranslator tr p] =
    {| prefix := strings.TrimSpace p; translator := tr |}.
Proof. reflexivity. Qed.

(** C6 as stated fails: a rule name with surrounding white space is
    registered under the trimmed name, and looked up untrimmed. *)
Section C6_example.
Import Fixture.

Lemma C6_padded_rule_keys_differ :
  let v := (NewValidator [WithTranslator (Some emptyTable) "v"]) in
  let reg := AddTranslation v "en" " r" "m" [] in
  let look :=
    translate (result reg) "en" "f" " r" "f" (AnyString "") plainValue 0 in
  strings.TrimSpace " r" <> "" /\
  calls reg = [CallAddMessage "en" "v.r" "m" []] /\
  calls reg <> [CallAddMessage "en" ("v" ++ "." ++ " r") "m" []] /\
  calls look =
    [CallPlural "en" "v. r" 0
       (<["param" := AnyString ""]> (<["field" := AnyString "f"]> ∅))] /\
  result look = "".
Proof.
  intros v reg look.
  assert (Hreg : reg =
    ({| prefix := "v";
        translator :=
          Some (<[("en", "v.r") := "m"]> (∅ : gmap (string * string) string)) |},
     [CallAddMessage "en" "v.r" "m" []])) by reflexivity.
  split; [vm_compute; discriminate|].
  split; [rewrite Hreg; reflexivity|].
  split; [rewrite Hreg; intros [= E]; vm_compute in E; discriminate E|].
  subst look. rewrite Hreg. split; [reflexivity|].
  change (default ""
            ((<[("en", "v.r") := "m"]> (∅ : gmap (string * string) string))
               !! ("en", "v. r")) = "").
  rewrite lookup_insert_ne by (intros [= E]; discriminate E).
  rewrite lookup_empty. reflexivity.
Qed.
End C6_example.

(** C6, amended: with a translator configured, [AddTranslation] registers
    under the key made of the prefix and the trimmed rule name, and
    [translate], when the value's hook does not answer, asks the global
    translator under the key made of the prefix and the rule name as given;
    with an empty prefix both use the rule name alone.  The two keys are the
    same exactly when the rule name has no surrounding white space. *)
Theorem C6_registration_and_lookup_keys `{GoFloat} {T : Type}
    `{!Translator T} (v : I18nValidator T) (tr : T)
    (locale R message : string) (options : list PluralOption)
    (name field : string) (param : any_param) (value : Value) (count : Z) :
  translator v = Some tr ->
  strings.TrimSpace R <> "" ->
  (forall hook, TranslateError value = Some hook -> hook locale R field = "") ->
  let key := fun rule : string =>
    if (prefix v =? "")%string then rule else prefix v ++ "." ++ rule in
  let reg := AddTranslation v locale R message options in
  let look := translate v locale name R field param value count in
  calls reg = [CallAddMessage locale (key (strings.TrimSpace R)) message options] /\
  result reg =
    {| prefix := prefix v;
       translator :=
         Some (AddMessage tr locale (key (strings.TrimSpace R)) message options) |} /\
  (exists before values,
     calls look = (before ++ [CallPlural locale (key R) count values])%list /\
     Forall (fun c => forall l k n vs, c <> CallPlural l k n vs) before /\
     result look = Plural tr locale (key R) count values) /\
  (key (strings.TrimSpace R) = key R <-> strings.TrimSpace R = R).
Proof.
  intros Htr Hrule Hhook. cbv zeta.
  split; [|split; [|split]].
  - unfold AddTranslation. rewrite Htr.
    destruct (String.eqb_spec (strings.TrimSpace R) "") as [E|_];
      [contradiction|].
    destruct (prefix v =? "")%string; reflexivity.
  - unfold AddTranslation. rewrite Htr.
    destruct (String.eqb_spec (strings.TrimSpace R) "") as [E|_];
      [contradiction|].
    destruct (prefix v =? "")%string; reflexivity.
  - unfold translate. rewrite Htr.
    destruct (prefix v =? "")%string; cbn [negb];
      destruct (TranslateError value) as [hook|] eqn:Hh;
      cbn [bind invoke];
      try (rewrite (Hhook hook eq_refl); cbn [String.eqb negb]);
      destruct (TranslateTitle value) as [title|]; cbn [bind invoke ret];
      cbn [calls result fst snd app];
      first [ eexists [], _; split; [reflexivity|]
            | eexists [_], _; split; [reflexivity|]
            | eexists [_; _], _; split; [reflexivity|] ];
      (split; [|reflexivity]);
      repeat constructor; discriminate.
  - destruct (prefix v =? "")%string; [done|].
    split; [|by intros ->].
    intros E. apply append_inj_l in E. by apply append_inj_l in E.
Qed.

Section C6_witness_example.
Import Fixture.

Lemma C6_witness :
  calls (AddTranslation (NewValidator [WithTranslator (Some emptyTable) "v"])
           "en" "is_valid" "{field} must be valid" []) =
  [CallAddMessage "en" "v.is_valid" "{field} must be valid" []].
Proof.
  refine (proj1 (C6_registration_and_lookup_keys
                   (NewValidator [WithTranslator (Some emptyTable) "v"])
                   emptyTable
                   "en" "is_valid" "{field} must be valid" []
                   "f" "f" (AnyString "") plainValue 0 _ _ _)).
  - reflexivity.
  - vm_compute; discriminate.
  - intros hook; discriminate.
Defined.
End C6_witness_example.

(** ** The pipeline as a run of [AddError] calls *)

Section PipelineLemmas.
Context `{GoFloat} {T : Type} `{!Translator T}.

Lemma result_bind {A B} (m : M A) (k : A -> M B) :
  result (bind m k) = result (k (result m)).
Proof.
  unfold result, bind. destruct m as [a l1]. simpl.
  destruct (k a). reflexivity.
Qed.

Lemma result_foldM {A B} (f : B -> A -> M B) (g : B -> A -> B) :
  (forall b a, result (f b a) = g b a) ->
  forall l b, result (foldM f l b) = foldl g b l.
Proof.
  intros Hfg l. induction l as [|a l IH]; intros b; [reflexivity|].
  simpl. rewrite result_bind, IH, Hfg. reflexivity.
Qed.

Lemma structStep_result (v : I18nValidator T) locale value res field :
  result (structStep v locale value res field) =
  let c := structEntry v locale value field in
  AddError res c.1.1 c.1.2 c.2.
Proof.
  unfold structStep, structEntry.
  destruct (paramAndCount (FieldError.Param field)) as [param count].
  destruct (translator v); [|reflexivity].
  rewrite result_bind. reflexivity.
Qed.

Lemma variableStep_result (v : I18nValidator T) locale name value res
    field :
  result (variableStep v locale name value res field) =
  let c := variableEntry v locale name value field in
  AddError res c.1.1 c.1.2 c.2.
Proof.
  unfold variableStep, variableEntry.
  destruct (paramAndCount (FieldError.Param field)) as [param count].
  destruct (translator v); [|reflexivity].
  rewrite result_bind. reflexivity.
Qed.

Lemma AddErrors_fmap {A} (f : A -> string * string * list string) l e :
  AddErrors e (f <$> l) =
  foldl (fun acc a => AddError acc (f a).1.1 (f a).1.2 (f a).2) e l.
Proof.
  revert e. induction l as [|a l IH]; intros e; [reflexivity|].
  simpl. apply IH.
Qed.

Lemma parseStructErrors_AddErrors (v : I18nValidator T) locale value errs :
  result (parseStructErrors v locale value (Some (ValidationErrors errs))) =
  AddErrors NewEmptyError (structEntry v locale value <$> errs).
Proof.
  unfold parseStructErrors. rewrite AddErrors_fmap.
  apply result_foldM. intros b a. apply structStep_result.
Qed.

Lemma parseVariableErrors_AddErrors (v : I18nValidator T) locale name value
    errs :
  result (parseVariableErrors v locale name value
            (Some (ValidationErrors errs))) =
  AddErrors NewEmptyError (variableEntry v locale name value <$> errs).
Proof.
  unfold parseVariableErrors. rewrite AddErrors_fmap.
  apply result_foldM. intros b a. apply variableStep_result.
Qed.

End PipelineLemmas.


(** ** The error-translation pipeline *)

(** C7 as stated fails: with a translator configured whose lookup misses,
    the entry of a violation record is stored empty; the engine's message
    is not used. *)
Section C7_example.
Import Fixture.

End C7_example.


Section C7_witness_example.
Import Fixture.

End C7_witness_example.

(** C8: what the variable pipeline does without a translator.  The record
    the engine reports for a variable carries no field name; it is filed
    under that empty name and nothing is filed under the caller's name. *)
Theorem C8_variable_without_translator_ignores_name `{GoFloat} {T : Type}
    `{!Translator T} (locale : string) (value : Value) :
  let v : I18nValidator T := NewValidator [] in
  let e := result (parseVariableErrors v locale "age" value
                     (Some (ValidationErrors [Fixture.required ""]))) in
  IsFailed e "age" = false /\
  IsFailedOn e "age" "required" = false /\
  IsFailedOn e "" "required" = true /\
  HasValidationErrors e = true.
Proof.
  cbv zeta. rewrite parseVariableErrors_AddErrors.
  repeat split; vm_compute; reflexivity.
Qed.

(** ** The national code *)

Lemma Atoi_digit (c : ascii) :
  funcs.isDigit c = true ->
  strconv.Atoi (String c EmptyString) = byte_of c - 48.
Proof.
  destruct c as [b0 b1 b2 b3 b4 b5 b6 b7].
  destruct b0, b1, b2, b3, b4, b5, b6, b7; vm_compute;
    intros E; first [reflexivity | discriminate E].
Qed.

Lemma isDigit_range (c : ascii) :
  funcs.isDigit c = true <-> 48 <= byte_of c <= 57.
Proof. unfold funcs.isDigit. lia. Qed.

Lemma length_ten (s : string) :
  String.length s = 10%nat ->
  exists c0 c1 c2 c3 c4 c5 c6 c7 c8 c9,
    s = String c0 (String c1 (String c2 (String c3 (String c4
          (String c5 (String c6 (String c7 (String c8
             (String c9 EmptyString))))))))).
Proof.
  intros Hlen.
  do 10 (destruct s as [|? s]; [discriminate Hlen|]).
  destruct s; [|discriminate Hlen].
  repeat eexists.
Qed.

#[local] Arguments byte_of : simpl never.
#[local] Arguments strconv.Atoi : simpl never.

Ltac digit_case c :=
  destruct (funcs.isDigit c) eqn:?;
    [| cbn [andb negb]; split; [discriminate | intuition congruence]].

Lemma national_code_refines (s : string) :
  funcs.IsValidIranianNationalCode s = true <-> NationalCode.valid s.
Proof.
  unfold funcs.IsValidIranianNationalCode, NationalCode.valid,
    NationalCode.tenDigits.
  destruct (Nat.eqb_spec (String.length s) 10) as [Hlen|Hlen];
    cbn [negb]; [|split; [discriminate | tauto]].
  destruct (length_ten s Hlen) as (c0&c1&c2&c3&c4&c5&c6&c7&c8&c9&->).
  clear Hlen.
  unfold funcs.matchTenDigits, NationalCode.checkDigit,
    NationalCode.weightedSum, NationalCode.digitAt.
  cbn [String.length Nat.eqb andb list_ascii_of_string forallb
       funcs.checksumLoop funcs.byteAt String.get seq fold_right
       Z.of_nat Pos.of_succ_nat Pos.succ].
  rewrite !Forall_cons, Forall_nil, <- !isDigit_range.
  digit_case c0. digit_case c1. digit_case c2. digit_case c3. digit_case c4.
  digit_case c5. digit_case c6. digit_case c7. digit_case c8. digit_case c9.
  cbn [andb negb]. rewrite !Atoi_digit by assumption.
  repeat match goal with
         | E : funcs.isDigit _ = true |- _ => apply isDigit_range in E
         end.
  set (d0 := byte_of c0 - 48) in *. set (d1 := byte_of c1 - 48) in *.
  set (d2 := byte_of c2 - 48) in *. set (d3 := byte_of c3 - 48) in *.
  set (d4 := byte_of c4 - 48) in *. set (d5 := byte_of c5 - 48) in *.
  set (d6 := byte_of c6 - 48) in *. set (d7 := byte_of c7 - 48) in *.
  set (d8 := byte_of c8 - 48) in *. set (d9 := byte_of c9 - 48) in *.
  match goal with
  | |- context [Z.rem ?a 11] =>
      match goal with
      | |- context [Z.modulo ?b 11] =>
          replace a with b by ring; rewrite (Z.rem_mod_nonneg b 11) by lia
      end
  end.
  match goal with
  | |- context [Z.modulo ?b 11] => generalize (b mod 11); intros r
  end.
  destruct (r <? 2); rewrite Z.eqb_eq; tauto.
Qed.

Lemma national_code_tenth_digit (c : ascii) :
  funcs.IsValidIranianNationalCode ("049937089" ++ String c EmptyString)
    = true <-> c = "9"%char.
Proof.
  destruct c as [b0 b1 b2 b3 b4 b5 b6 b7].
  destruct b0, b1, b2, b3, b4, b5, b6, b7; vm_compute;
    split; intros E; first [reflexivity | discriminate E].
Qed.

(** C9: [IsValidIranianNationalCode] accepts exactly the strings of ten
    ASCII digits whose tenth digit is the check digit of the first nine
    (the sum of digit i times 10 - i, reduced modulo 11; the remainder
    itself below 2, else 11 minus the remainder).  It accepts
    ["0499370899"], and rejects it with any other tenth byte. *)
Theorem C9_national_code :
  (forall s, funcs.IsValidIranianNationalCode s = true <-> NationalCode.valid s) /\
  funcs.IsValidIranianNationalCode "0499370899" = true /\
  (forall c : ascii,
     funcs.IsValidIranianNationalCode ("049937089" ++ String c EmptyString)
       = true <-> c = "9"%char).
Proof.
  split; [exact national_code_refines|].
  split; [vm_compute; reflexivity|exact national_code_tenth_digit].
Qed.

(** ** Consistency of the query views *)

Lemma views_consistent (e : vErrors) :
  (forall F R, IsFailedOn e F R = true -> IsFailed e F = true) /\
  dom (Rules e) = dom (Errors e) /\
  dom (Messages e) = dom (Errors e) /\
  (forall F errs,
     Errors e !! F = Some errs ->
     exists rules messages,
       Rules e !! F = Some rules /\
       Messages e !! F = Some messages /\
       NoDup rules /\
       (forall R, R ∈ rules <-> is_Some (errs !! R)) /\
       (forall m, m ∈ messages <-> exists R, errs !! R = Some m) /\
       length rules = size errs /\
       length messages = size errs /\
       exists pairs : list (string * string),
         NoDup (pairs.*1) /\
         (forall R m, (R, m) ∈ pairs <-> errs !! R = Some m) /\
         rules ≡ₚ pairs.*1 /\
         messages ≡ₚ pairs.*2).
Proof.
  split; [|split; [|split]].
  - intros F R. unfold IsFailedOn, IsFailed.
    destruct (valerr e !! F); [done | discriminate].
  - apply dom_fmap_L.
  - apply dom_fmap_L.
  - intros F errs HF. unfold Errors in HF.
    exists ((map_to_list errs).*1), ((map_to_list errs).*2).
    unfold Rules, Messages. rewrite !lookup_fmap, HF. simpl.
    split; [done|]. split; [done|].
    split; [apply NoDup_fst_map_to_list|].
    split; [|split].
    + intros R. rewrite list_elem_of_fmap. split.
      * intros ([R' m] & -> & Hin). apply elem_of_map_to_list in Hin.
        by exists m.
      * intros [m Hm]. exists (R, m). split; [done|].
        by apply elem_of_map_to_list.
    + intros m. rewrite list_elem_of_fmap. split.
      * intros ([R m'] & -> & Hin). apply elem_of_map_to_list in Hin.
        by exists R.
      * intros [R Hm]. exists (R, m). split; [done|].
        by apply elem_of_map_to_list.
    + split; [by rewrite length_fmap, length_map_to_list|].
      split; [by rewrite length_fmap, length_map_to_list|].
      exists (map_to_list errs).
      split; [apply NoDup_fst_map_to_list|].
      split; [intros R m; apply elem_of_map_to_list|]. done.
Qed.

(** [AddError] never leaves a field without a rule: a failed field has
    failed on some rule. *)
Lemma AddError_fieldsHaveRules e F R msgs :
  fieldsHaveRules e -> fieldsHaveRules (AddError e F R msgs).
Proof.
  intros He F' errs'. unfold AddError.
  destruct (valerr e !! F) as [errs|] eqn:HF; simpl;
    (destruct (decide (F = F')) as [<-|HFF];
     [rewrite lookup_insert_eq; intros [= <-]
     |rewrite lookup_insert_ne by done; apply He]).
  - apply insert_non_empty.
  - apply map_non_empty_singleton.
Qed.

Lemma AddErrors_fieldsHaveRules run e :
  fieldsHaveRules e -> fieldsHaveRules (AddErrors e run).
Proof.
  revert e. induction run as [|c run IH]; intros e He; [done|].
  apply IH. by apply AddError_fieldsHaveRules.
Qed.

Lemma failed_field_has_rule err run F :
  IsFailed (AddErrors (NewError err) run) F = true ->
  exists R, IsFailedOn (AddErrors (NewError err) run) F R = true.
Proof.
  assert (Hinv : fieldsHaveRules (AddErrors (NewError err) run)).
  { apply AddErrors_fieldsHaveRules. intros F' errs'. simpl.
    by rewrite lookup_empty. }
  unfold IsFailed, IsFailedOn.
  destruct (valerr (AddErrors (NewError err) run) !! F) as [errs|] eqn:HF;
    [|discriminate].
  intros _. destruct (map_choose errs (Hinv F errs HF)) as (R & m & HR).
  exists R. by rewrite HR.
Qed.

(** C10: after any run of [AddError] calls on any aggregate, the query
    views agree: a field failed on a rule is a failed field; [Errors],
    [Rules] and [Messages] have the same fields; and for each field the
    rules listed are exactly the keys of its entry in [Errors], without
    repetition, the messages listed are exactly the messages of that entry,
    and both lists are as long as the entry has pairs.  More precisely the
    (rule, message) pairs of the entry, each rule once, give the rules
    listed and, one message per rule, the messages listed, both up to
    order. *)
Theorem C10_views_consistent (e0 : vErrors)
    (run : list (string * string * list string)) :
  let e := AddErrors e0 run in
  (forall F R, IsFailedOn e F R = true -> IsFailed e F = true) /\
  dom (Rules e) = dom (Errors e) /\
  dom (Messages e) = dom (Errors e) /\
  (forall F errs,
     Errors e !! F = Some errs ->
     exists rules messages,
       Rules e !! F = Some rules /\
       Messages e !! F = Some messages /\
       NoDup rules /\
       (forall R, R ∈ rules <-> is_Some (errs !! R)) /\
       (forall m, m ∈ messages <-> exists R, errs !! R = Some m) /\
       length rules = size errs /\
       length messages = size errs /\
       exists pairs : list (string * string),
         NoDup (pairs.*1) /\
         (forall R m, (R, m) ∈ pairs <-> errs !! R = Some m) /\
         rules ≡ₚ pairs.*1 /\
         messages ≡ₚ pairs.*2).
Proof. intros e. apply views_consistent. Qed.

(** * Further properties of the code *)

(** ** error.go: the aggregate *)

Lemma HasValidationErrors_true (e : vErrors) :
  HasValidationErrors e = true <-> valerr e <> ∅.
Proof.
  unfold HasValidationErrors. rewrite Nat.ltb_lt.
  rewrite <- map_size_non_empty_iff. lia.
Qed.

Lemma AddError_valerr_nonempty e F R msgs : valerr (AddError e F R msgs) <> ∅.
Proof.
  unfold AddError. destruct (valerr e !! F); simpl; apply insert_non_empty.
Qed.

Lemma AddError_comm (e : vErrors) (F R F' R' : string)
    (msgs msgs' : list string) :
  (F, R) <> (F', R') ->
  AddError (AddError e F R msgs) F' R' msgs' =
  AddError (AddError e F' R' msgs') F R msgs.
Proof.
  intros Hne. destruct (decide (F = F')) as [<-|HF].
  - assert (HR : R <> R') by congruence.
    unfold AddError.
    destruct (valerr e !! F) as [errs|] eqn:HFe; simpl;
      rewrite !lookup_insert_eq; simpl; rewrite !insert_insert_eq;
      f_equal; f_equal.
    + by apply insert_insert_ne.
    + rewrite <- !insert_empty. by apply insert_insert_ne.
  - unfold AddError.
    destruct (valerr e !! F) as [errs|] eqn:HFe,
             (valerr e !! F') as [errs'|] eqn:HFe'; simpl;
      rewrite !lookup_insert_ne by done; rewrite ?HFe, ?HFe'; simpl;
      f_equal; by apply insert_insert_ne.
Qed.


(** X1: two [AddError] calls for different (field, rule) pairs commute:
    the order in which the engine reports two different violations does
    not show in the aggregate. *)
Theorem X1_AddError_commutes (e : vErrors) (F R F' R' : string)
    (msgs msgs' : list string) :
  (F, R) <> (F', R') ->
  AddError (AddError e F R msgs) F' R' msgs' =
  AddError (AddError e F' R' msgs') F R msgs.
Proof. apply AddError_comm. Qed.

Lemma X1_witness :
  AddError (AddError NewEmptyError "Name" "required" ["a"]) "Name" "min" ["b"]
  = AddError (AddError NewEmptyError "Name" "min" ["b"]) "Name" "required"
      ["a"].
Proof.
  apply (X1_AddError_commutes NewEmptyError "Name" "required" "Name" "min"
           ["a"] ["b"]).
  intros E; discriminate E.
Defined.

(** X2: after [AddError (F, R, m)] the aggregate reports the failure on
    every query: it has an error, it has validation errors, field [F] is
    failed and failed on [R]; the internal error is what it was. *)
Theorem X2_AddError_is_reported (e : vErrors) (F R : string)
    (msgs : list string) :
  let e' := AddError e F R msgs in
  HasError e' = true /\ HasValidationErrors e' = true /\
  IsFailed e' F = true /\ IsFailedOn e' F R = true /\
  InternalError e' = InternalError e /\
  HasInternalError e' = HasInternalError e.
Proof.
  cbv zeta.
  assert (Hv : HasValidationErrors (AddError e F R msgs) = true)
    by (apply HasValidationErrors_true, AddError_valerr_nonempty).
  assert (Hl := lookupMessage_AddError_same e F R msgs).
  unfold lookupMessage, Errors in Hl.
  split; [unfold HasError; rewrite Hv; apply orb_true_r|].
  split; [done|].
  unfold IsFailed, IsFailedOn.
  destruct (valerr (AddError e F R msgs) !! F) as [errs|]; [|done].
  simpl in Hl. rewrite Hl.
  repeat split; unfold InternalError, HasInternalError, AddError;
    by destruct (valerr e !! F).
Qed.

(** X3: [AddError (F, R, m)] touches nothing but the pair (F, R): the
    message of every other pair, present or absent, is what it was. *)
Theorem X3_AddError_frame (e : vErrors) (F R F' R' : string)
    (msgs : list string) :
  (F, R) <> (F', R') ->
  lookupMessage (AddError e F R msgs) F' R' = lookupMessage e F' R' /\
  IsFailedOn (AddError e F R msgs) F' R' = IsFailedOn e F' R'.
Proof.
  intros Hne.
  assert (Hl := lookupMessage_AddError_other e F R msgs F' R' Hne).
  split; [done|]. revert Hl. unfold lookupMessage, Errors, IsFailedOn.
  destruct (valerr (AddError e F R msgs) !! F') as [a|],
           (valerr e !! F') as [b|]; simpl; intros Hl;
    rewrite ?Hl; try done.
  by rewrite <- Hl.
Qed.

Lemma X3_witness :
  lookupMessage (AddError NewEmptyError "Name" "required" ["a"]) "Age" "min"
  = lookupMessage NewEmptyError "Age" "min".
Proof.
  apply (X3_AddError_frame NewEmptyError "Name" "required" "Age" "min" ["a"]).
  intros E; discriminate E.
Defined.

(** X4: for an aggregate built by [NewError] (or [NewEmptyError]) and any
    run of [AddError] calls, [HasValidationErrors] is true exactly when the
    run is not empty, and exactly when some field is failed on some rule. *)
Theorem X4_HasValidationErrors_iff (err : option error)
    (run : list (string * string * list string)) :
  let e := AddErrors (NewError err) run in
  (HasValidationErrors e = true <-> run <> []) /\
  (HasValidationErrors e = true <-> exists F R, IsFailedOn e F R = true).
Proof.
  cbv zeta. split.
  - destruct run as [|c run _] using rev_ind; [by split|].
    split; [by destruct run|]. intros _.
    unfold AddErrors. rewrite foldl_app. simpl.
    apply HasValidationErrors_true, AddError_valerr_nonempty.
  - rewrite HasValidationErrors_true. split.
    + intros Hne. destruct (map_choose _ Hne) as (F & errs & HF).
      destruct (failed_field_has_rule err run F) as [R HR].
      * unfold IsFailed. by rewrite HF.
      * by exists F, R.
    + intros (F & R & HFR) Hempty. unfold IsFailedOn in HFR.
      rewrite Hempty, lookup_empty in HFR. discriminate.
Qed.

Lemma append_empty_inv (a b : string) : a ++ b = "" -> a = "" /\ b = "".
Proof. destruct a; [done | discriminate]. Qed.

(** X5: [String] returns the empty string exactly when the aggregate has no
    validation errors; an internal error alone prints nothing. *)
Theorem X5_String_empty_iff (e : vErrors) :
  vErrors_String e = "" <-> HasValidationErrors e = false.
Proof.
  rewrite <- not_true_iff_false, HasValidationErrors_true.
  unfold vErrors_String. rewrite <- map_to_list_empty_iff.
  destruct (map_to_list (valerr e)) as [|fe l]; simpl.
  - split; [intros _ Hn; by apply Hn | done].
  - split; [|intros Hn; exfalso; by apply Hn].
    intros E. apply append_empty_inv in E as [E _].
    unfold fieldBlock in E. apply append_empty_inv in E as [_ E].
    discriminate E.
Qed.

Lemma IsFailedOn_lookupMessage (e : vErrors) (F R : string) :
  IsFailedOn e F R = true <-> is_Some (lookupMessage e F R).
Proof.
  unfold IsFailedOn, lookupMessage, Errors.
  destruct (valerr e !! F) as [errs|]; simpl.
  - destruct (errs !! R); split; try done; by intros [? ?].
  - split; [done | by intros [? ?]].
Qed.

Lemma IsFailed_IsFailedOn_AddErrors err run F :
  IsFailed (AddErrors (NewError err) run) F = true <->
  exists R, IsFailedOn (AddErrors (NewError err) run) F R = true.
Proof.
  split; [apply failed_field_has_rule|].
  intros [R HR]. by apply (proj1 (views_consistent _)) in HR.
Qed.

Lemma AddErrors_snoc e run c :
  AddErrors e (run ++ [c]) = AddError (AddErrors e run) c.1.1 c.1.2 c.2.
Proof. unfold AddErrors. by rewrite foldl_app. Qed.

Lemma AddErrors_interr e run : interr (AddErrors e run) = interr e.
Proof.
  induction run as [|c run IH] using rev_ind; [done|].
  rewrite AddErrors_snoc, <- IH. unfold AddError.
  by destruct (valerr (AddErrors e run) !! c.1.1).
Qed.

Lemma AddErrors_HasValidationErrors err run :
  HasValidationErrors (AddErrors (NewError err) run) = true <-> run <> [].
Proof.
  destruct run as [|c run _] using rev_ind; [by split|].
  split; [by destruct run|]. intros _. rewrite AddErrors_snoc.
  apply HasValidationErrors_true, AddError_valerr_nonempty.
Qed.

(** The pairs failed after a run of [AddError] calls are the pairs failed
    before and the pairs of the calls. *)
Lemma AddErrors_IsFailedOn {A} (f : A -> string * string * list string)
    (l : list A) (e : vErrors) (F R : string) :
  IsFailedOn (AddErrors e (f <$> l)) F R = true <->
  IsFailedOn e F R = true \/ exists a, a ∈ l /\ (f a).1 = (F, R).
Proof.
  induction l as [|x l IH] using rev_ind.
  - simpl. split; [by left|]. intros [?|(a & Ha & _)]; [done|].
    by apply elem_of_nil in Ha.
  - rewrite fmap_app. simpl. rewrite AddErrors_snoc.
    destruct (decide ((f x).1 = (F, R))) as [E|NE].
    + split; [intros _; right; exists x; split;
               [apply elem_of_app; right; apply list_elem_of_here|done]|].
      intros _. apply IsFailedOn_lookupMessage.
      destruct (f x) as [[F0 R0] msgs]. simpl in E. injection E as -> ->.
      simpl. rewrite lookupMessage_AddError_same. by eexists.
    + assert (Hsame : IsFailedOn
                (AddError (AddErrors e (f <$> l)) (f x).1.1 (f x).1.2 (f x).2)
                F R = true <->
              IsFailedOn (AddErrors e (f <$> l)) F R = true).
      { rewrite !IsFailedOn_lookupMessage.
        rewrite lookupMessage_AddError_other; [done|].
        by destruct (f x) as [[F0 R0] msgs]. }
      rewrite Hsame, IH. split.
      * intros [?|(a & Ha & Ea)]; [by left|].
        right. exists a. split; [apply elem_of_app; by left|done].
      * intros [?|(a & Ha & Ea)]; [by left|].
        right. exists a. split; [|done].
        apply elem_of_app in Ha as [Ha|Ha]; [done|].
        apply list_elem_of_singleton in Ha. congruence.
Qed.

(** ** driver.go: the pipelines *)

Section PipelineExtras.
Context `{GoFloat} {T : Type} `{!Translator T}.

Lemma calls_bind {A B} (m : M A) (k : A -> M B) :
  calls (bind m k) = (calls m ++ calls (k (result m)))%list.
Proof.
  unfold calls, result, bind. destruct m as [a l1]. simpl.
  destruct (k a). reflexivity.
Qed.

(** When the calls of a step do not depend on the accumulator, the calls of
    the loop are those of the steps, in order. *)
Lemma calls_foldM {A B} (f : B -> A -> M B) (g : A -> list Call) :
  (forall b a, calls (f b a) = g a) ->
  forall l b, calls (foldM f l b) = concat (g <$> l).
Proof.
  intros Hfg l. induction l as [|a l IH]; intros b; [reflexivity|].
  simpl. rewrite calls_bind, Hfg, IH. reflexivity.
Qed.

Lemma structStep_calls (v : I18nValidator T) locale value res field :
  calls (structStep v locale value res field) =
  match translator v with
  | None => []
  | Some _ =>
      let pc := paramAndCount (FieldError.Param field) in
      calls (translate v locale (FieldError.Field field)
               (FieldError.Tag field) (FieldError.StructField field)
               pc.1 value pc.2)
  end.
Proof.
  unfold structStep.
  destruct (paramAndCount (FieldError.Param field)) as [param count].
  destruct (translator v); [|reflexivity].
  rewrite calls_bind. simpl. apply app_nil_r.
Qed.

Lemma variableStep_calls (v : I18nValidator T) locale name value res field :
  calls (variableStep v locale name value res field) =
  match translator v with
  | None => []
  | Some _ =>
      let pc := paramAndCount (FieldError.Param field) in
      calls (translate v locale name (FieldError.Tag field) name
               pc.1 value pc.2)
  end.
Proof.
  unfold variableStep.
  destruct (paramAndCount (FieldError.Param field)) as [param count].
  destruct (translator v); [|reflexivity].
  rewrite calls_bind. simpl. apply app_nil_r.
Qed.

Lemma concat_no_calls {A} (l : list A) :
  concat ((fun _ : A => @nil Call) <$> l) = [].
Proof. induction l as [|a l IH]; [done|]. simpl. exact IH. Qed.

Lemma concat_one_call {A} (g : A -> Call) (l : list A) :
  concat ((fun a => [g a]) <$> l) = g <$> l.
Proof. induction l as [|a l IH]; [done|]. simpl. f_equal. exact IH. Qed.

Lemma M_eq {A} (m1 m2 : M A) :
  result m1 = result m2 -> calls m1 = calls m2 -> m1 = m2.
Proof. destruct m1, m2. simpl. by intros -> ->. Qed.

End PipelineExtras.

Section PipelineTheorems.
Context `{GoFloat} {T : Type} `{!Translator T}.

(** X6: the struct pipeline fails exactly the pairs the engine reported: a
    field is failed on a rule if and only if some violation record has that
    field and that rule, and a field is failed if and only if some record
    has that field. *)
Theorem X6_struct_failures_are_the_records (v : I18nValidator T)
    (locale : string) (value : Value) (errs : list FieldError.t)
    (F R : string) :
  let res := result (parseStructErrors v locale value
                       (Some (ValidationErrors errs))) in
  (IsFailedOn res F R = true <->
   exists r, r ∈ errs /\ FieldError.Field r = F /\ FieldError.Tag r = R) /\
  (IsFailed res F = true <-> exists r, r ∈ errs /\ FieldError.Field r = F).
Proof.
  cbv zeta. rewrite parseStructErrors_AddErrors.
  assert (Hon : forall R0,
    IsFailedOn (AddErrors NewEmptyError (structEntry v locale value <$> errs))
      F R0 = true <->
    exists r, r ∈ errs /\ FieldError.Field r = F /\ FieldError.Tag r = R0).
  { intros R0. rewrite AddErrors_IsFailedOn. split.
    - intros [Hf|(r & Hr & E)]; [discriminate Hf|].
      exists r. by injection E as -> ->.
    - intros (r & Hr & <- & <-). right. by exists r. }
  split; [apply Hon|].
  change NewEmptyError with (NewError None).
  rewrite IsFailed_IsFailedOn_AddErrors.
  change (NewError None) with NewEmptyError. split.
  - intros [R0 HR0]. apply Hon in HR0 as (r & Hr & E & _). by exists r.
  - intros (r & Hr & E). exists (FieldError.Tag r). apply Hon. by exists r.
Qed.

(** X7: with a translator configured, the variable pipeline files every
    record under the caller's name and nothing under any other field: a
    pair is failed if and only if its field is the name and some record has
    its rule. *)
Theorem X7_variable_failures_under_name (v : I18nValidator T)
    (locale name : string) (value : Value) (errs : list FieldError.t)
    (F R : string) :
  translator v <> None ->
  IsFailedOn (result (parseVariableErrors v locale name value
                        (Some (ValidationErrors errs)))) F R = true <->
  F = name /\ exists r, r ∈ errs /\ FieldError.Tag r = R.
Proof.
  intros Htr. destruct (translator v) as [tr|] eqn:Etr; [clear Htr|done].
  rewrite parseVariableErrors_AddErrors, AddErrors_IsFailedOn. split.
  - intros [Hf|(r & Hr & E)]; [discriminate Hf|].
    unfold variableEntry in E. rewrite Etr in E. injection E as <- <-.
    split; [done|]. by exists r.
  - intros (-> & r & Hr & <-). right. exists r. split; [done|].
    unfold variableEntry. by rewrite Etr.
Qed.

(** X8: a set of violation records never becomes an internal error, and
    the aggregate of either pipeline has an error exactly when the set is
    not empty: a non-nil but empty set is a pass. *)
Theorem X8_records_never_internal (v : I18nValidator T)
    (locale name : string) (value : Value) (errs : list FieldError.t) :
  let s := result (parseStructErrors v locale value
                     (Some (ValidationErrors errs))) in
  let w := result (parseVariableErrors v locale name value
                     (Some (ValidationErrors errs))) in
  (HasInternalError s = false /\ (HasError s = true <-> errs <> [])) /\
  (HasInternalError w = false /\ (HasError w = true <-> errs <> [])).
Proof.
  cbv zeta.
  rewrite parseStructErrors_AddErrors, parseVariableErrors_AddErrors.
  assert (Hgen : forall f : FieldError.t -> string * string * list string,
    HasInternalError (AddErrors NewEmptyError (f <$> errs)) = false /\
    (HasError (AddErrors NewEmptyError (f <$> errs)) = true <-> errs <> [])).
  { intros f.
    assert (Hi : HasInternalError (AddErrors NewEmptyError (f <$> errs))
                 = false).
    { unfold HasInternalError. by rewrite AddErrors_interr. }
    split; [done|]. unfold HasError. rewrite Hi. simpl.
    change NewEmptyError with (NewError None).
    rewrite AddErrors_HasValidationErrors. by destruct errs. }
  split; apply Hgen.
Qed.

(** X9: without a translator the two pipelines are the same function: the
    variable pipeline ignores the caller's name, and neither makes any call
    to a collaborator, whatever the engine error is. *)
Theorem X9_no_translator_no_calls (v : I18nValidator T)
    (locale name : string) (value : Value) (err : option error) :
  translator v = None ->
  parseVariableErrors v locale name value err =
    parseStructErrors v locale value err /\
  calls (parseStructErrors v locale value err) = [].
Proof.
  intros Htr. destruct err as [[errs|text]|]; [|by split|by split].
  assert (Hc : calls (parseStructErrors v locale value
                        (Some (ValidationErrors errs))) = []).
  { unfold parseStructErrors.
    rewrite (calls_foldM _ (fun _ => [])); [apply concat_no_calls|].
    intros b a. rewrite structStep_calls. by rewrite Htr. }
  split; [|exact Hc].
  apply M_eq.
  - rewrite parseStructErrors_AddErrors, parseVariableErrors_AddErrors.
    f_equal. apply list_fmap_ext. intros i r _.
    unfold variableEntry, structEntry. by rewrite Htr.
  - rewrite Hc. unfold parseVariableErrors.
    rewrite (calls_foldM _ (fun _ => [])); [apply concat_no_calls|].
    intros b a. rewrite variableStep_calls. by rewrite Htr.
Qed.

(** X10: with a translator and a value that has neither hook, the struct
    pipeline asks the global translator once per record, in the order of
    the records, under the prefixed rule of the record, with the record's
    field as display name and with the coerced parameter and count. *)
Theorem X10_one_Plural_call_per_record (v : I18nValidator T) (tr : T)
    (locale : string) (value : Value) (errs : list FieldError.t) :
  translator v = Some tr ->
  TranslateError value = None ->
  TranslateTitle value = None ->
  calls (parseStructErrors v locale value (Some (ValidationErrors errs))) =
  (fun r : FieldError.t =>
     let pc := paramAndCount (FieldError.Param r) in
     CallPlural locale
       (if (prefix v =? "")%string then FieldError.Tag r
        else prefix v ++ "." ++ FieldError.Tag r)
       pc.2
       (<["param" := pc.1]>
          (<["field" := AnyString (FieldError.Field r)]> ∅))) <$> errs.
Proof.
  intros Htr He Ht. unfold parseStructErrors.
  set (g := fun r : FieldError.t =>
    let pc := paramAndCount (FieldError.Param r) in
    CallPlural locale
      (if (prefix v =? "")%string then FieldError.Tag r
       else prefix v ++ "." ++ FieldError.Tag r)
      pc.2
      (<["param" := pc.1]>
         (<["field" := AnyString (FieldError.Field r)]> ∅))).
  rewrite (calls_foldM _ (fun r => [g r])); [apply concat_one_call|].
  intros b a. rewrite structStep_calls, Htr. unfold translate, g.
  rewrite Htr, He, Ht. by destruct (prefix v =? "")%string.
Qed.

(** X11: when the value's error hook is absent or answers empty,
    [translate] returns what the global translator returns for the prefixed
    rule, the given count and parameter, and a display name that is the
    answer of the value's title hook when it has one and the answer is not
    empty, and the given name otherwise. *)
Theorem X11_translate_display_name (v : I18nValidator T) (tr : T)
    (locale name rule field : string) (param : any_param) (value : Value)
    (count : Z) :
  translator v = Some tr ->
  (forall hook, TranslateError value = Some hook ->
                hook locale rule field = "") ->
  let display :=
    match TranslateTitle value with
    | Some title =>
        if (title locale field =? "")%string then name
        else title locale field
    | None => name
    end in
  result (translate v locale name rule field param value count) =
  Plural tr locale
    (if (prefix v =? "")%string then rule else prefix v ++ "." ++ rule)
    count
    (<["param" := param]> (<["field" := AnyString display]> ∅)).
Proof.
  intros Htr Hhook. cbv zeta. unfold translate. rewrite Htr.
  destruct (prefix v =? "")%string; cbn [negb];
    destruct (TranslateError value) as [hook|] eqn:Hh;
    cbn [bind invoke];
    try (rewrite (Hhook hook eq_refl); cbn [String.eqb negb]);
    destruct (TranslateTitle value) as [title|]; cbn [bind invoke ret];
    try destruct (title locale field =? "")%string; reflexivity.
Qed.

(** X12: [NewValidator] applies its options in order, and [WithTranslator]
    replaces both the translator and the prefix: the validator is the one
    of the last [WithTranslator] option, with the prefix trimmed; without
    options it has no translator and an empty prefix. *)
Theorem X12_last_WithTranslator_wins (options : list (@Options T))
    (tr : option T) (p : string) :
  NewValidator (options ++ [WithTranslator tr p]) =
    {| prefix := strings.TrimSpace p; translator := tr |} /\
  NewValidator (T := T) [] = {| prefix := ""; translator := None |}.
Proof.
  split; [|reflexivity]. unfold NewValidator. rewrite foldl_app.
  reflexivity.
Qed.

End PipelineTheorems.

Section PipelineWitnesses.
Import Fixture.

Lemma X7_witness :
  IsFailedOn
    (result (parseVariableErrors
               (NewValidator [WithTranslator (Some emptyTable) ""])
               "en" "age" plainValue
               (Some (ValidationErrors [required ""]))))
    "age" "required" = true.
Proof.
  apply (X7_variable_failures_under_name
           (NewValidator [WithTranslator (Some emptyTable) ""])
           "en" "age" plainValue [required ""] "age" "required").
  - discriminate.
  - split; [reflexivity|]. exists (required "").
    split; [apply list_elem_of_here | reflexivity].
Defined.

Lemma X9_witness :
  parseVariableErrors (NewValidator (T := gmap (string * string) string) [])
    "en" "age" plainValue (Some (ValidationErrors [required ""])) =
  parseStructErrors (NewValidator (T := gmap (string * string) string) [])
    "en" plainValue (Some (ValidationErrors [required ""])).
Proof.
  apply (X9_no_translator_no_calls
           (NewValidator (T := gmap (string * string) string) [])
           "en" "age" plainValue (Some (ValidationErrors [required ""]))).
  reflexivity.
Defined.

Lemma X10_witness :
  calls (parseStructErrors
           (NewValidator [WithTranslator (Some emptyTable) "v"])
           "en" plainValue (Some (ValidationErrors [required "Name"]))) =
  [CallPlural "en" "v.required" 0
     (<["param" := AnyInt64 0]> (<["field" := AnyString "Name"]> ∅))].
Proof.
  apply (X10_one_Plural_call_per_record
           (NewValidator [WithTranslator (Some emptyTable) "v"]) emptyTable
           "en" plainValue [required "Name"]); reflexivity.
Defined.

Lemma X11_witness :
  result (translate (NewValidator [WithTranslator (Some emptyTable) "v"])
            "en" "Name" "required" "Name" (AnyString "") plainValue 0) =
  Plural emptyTable "en" "v.required" 0
    (<["param" := AnyString ""]> (<["field" := AnyString "Name"]> ∅)).
Proof.
  apply (X11_translate_display_name
           (NewValidator [WithTranslator (Some emptyTable) "v"]) emptyTable
           "en" "Name" "required" "Name" (AnyString "") plainValue 0).
  - reflexivity.
  - intros hook; discriminate.
Defined.

End PipelineWitnesses.

(** ** utils.go *)

Lemma ParseInt_error_value (p : string) (i : Z) (e : strconv.NumError) :
  strconv.ParseInt p = (i, Some e) ->
  match e with
  | strconv.ErrSyntax => i = 0
  | strconv.ErrRange => i = 2 ^ 63 - 1 \/ i = - 2 ^ 63
  end.
Proof.
  unfold strconv.ParseInt. destruct p as [|c rest]; [by intros [= <- <-]|].
  destruct (if byte_of c =? 43 then (false, rest)
            else if byte_of c =? 45 then (true, rest)
            else (false, String c rest)) as [neg s1].
  destruct (strconv.ParseUint s1) as [un [[]|]];
    [by intros [= <- <-]| |];
    destruct (negb neg && (un >=? 2 ^ 63));
    try (intros [= <- <-]; by left);
    destruct (neg && (un >? 2 ^ 63));
    try (intros [= <- <-]; by right); discriminate.
Qed.

(** X13: [parseNumeric] returns an integer exactly when the string is not
    an int64 numeral, and the integer is then what [ParseInt] leaves behind:
    0 for a malformed string, the nearest int64 bound for one out of range.
    A string that is an int64 numeral never yields an integer. *)
Theorem X13_parseNumeric_shape `{GoFloat} (p : string) :
  match strconv.ParseInt p with
  | (_, Some strconv.ErrSyntax) =>
      parseNumeric p = (Some 0, None) /\ paramAndCount p = (AnyInt64 0, 0)
  | (i, Some strconv.ErrRange) =>
      parseNumeric p = (Some i, None) /\ paramAndCount p = (AnyInt64 i, i) /\
      (i = 2 ^ 63 - 1 \/ i = - 2 ^ 63)
  | (_, None) =>
      (parseNumeric p).1 = None /\
      forall i, (paramAndCount p).1 <> AnyInt64 i
  end.
Proof.
  destruct (strconv.ParseInt p) as [i [e|]] eqn:Hp.
  - pose proof (ParseInt_error_value p i e Hp) as Hi.
    pose proof (parseNumeric_int_rejected p i e Hp) as Hpc.
    assert (Hn : parseNumeric p = (Some i, None))
      by (unfold parseNumeric; by rewrite Hp).
    destruct e; [subst i; by split|]. by repeat split.
  - pose proof (parseNumeric_int_accepted p i Hp) as Hn.
    split; [done|]. intros i'. unfold paramAndCount.
    destruct (parseNumeric p) as [[?|] [?|]]; simpl in Hn; done.
Qed.

(** *** White space is trimmed once and for all *)

Lemma TrimLeft_fixed (s : string) :
  startsWithSpace s = false -> strings.TrimLeft s = s.
Proof.
  destruct s as [|c1 [|c2 [|c3 s3]]]; simpl; try done.
  - by destruct (strings.asciiSpace c1).
  - destruct (strings.asciiSpace c1); [done|].
    by destruct (strings.space2 c1 c2).
  - destruct (strings.asciiSpace c1); [done|].
    destruct (strings.space2 c1 c2); [done|].
    by destruct (strings.space3 c1 c2 c3).
Qed.

Lemma TrimLeftRev_fixed (s : string) :
  startsWithSpaceRev s = false -> strings.TrimLeftRev s = s.
Proof.
  destruct s as [|c1 [|c2 [|c3 s3]]]; simpl; try done.
  - by destruct (strings.asciiSpace c1).
  - destruct (strings.asciiSpace c1); [done|].
    by destruct (strings.space2 c2 c1).
  - destruct (strings.asciiSpace c1); [done|].
    destruct (strings.space2 c2 c1); [done|].
    by destruct (strings.space3 c3 c2 c1).
Qed.

Lemma TrimLeft_spec (n : nat) (s : string) :
  (String.length s <= n)%nat ->
  startsWithSpace (strings.TrimLeft s) = false /\
  exists x, s = x ++ strings.TrimLeft s.
Proof.
  revert s. induction n as [n IH] using lt_wf_ind. intros s Hlen.
  destruct s as [|c1 s1]; [split; [done | by exists ""]|].
  cbn [strings.TrimLeft]. simpl in Hlen.
  destruct (strings.asciiSpace c1) eqn:E1.
  { destruct (IH (String.length s1) ltac:(lia) s1 ltac:(lia)) as [Hs [x Hx]].
    split; [done|]. exists (String c1 x). by rewrite Hx at 1. }
  destruct s1 as [|c2 s2].
  { split; [simpl; by rewrite E1 | by exists ""]. }
  simpl in Hlen. destruct (strings.space2 c1 c2) eqn:E2.
  { destruct (IH (String.length s2) ltac:(lia) s2 ltac:(lia)) as [Hs [x Hx]].
    split; [done|]. exists (String c1 (String c2 x)). by rewrite Hx at 1. }
  destruct s2 as [|c3 s3].
  { split; [simpl; by rewrite E1, E2 | by exists ""]. }
  simpl in Hlen. destruct (strings.space3 c1 c2 c3) eqn:E3.
  { destruct (IH (String.length s3) ltac:(lia) s3 ltac:(lia)) as [Hs [x Hx]].
    split; [done|]. exists (String c1 (String c2 (String c3 x))). by rewrite Hx at 1. }
  split; [simpl; by rewrite E1, E2, E3 | by exists ""].
Qed.

Lemma TrimLeftRev_spec (n : nat) (s : string) :
  (String.length s <= n)%nat ->
  startsWithSpaceRev (strings.TrimLeftRev s) = false /\
  exists x, s = x ++ strings.TrimLeftRev s.
Proof.
  revert s. induction n as [n IH] using lt_wf_ind. intros s Hlen.
  destruct s as [|c1 s1]; [split; [done | by exists ""]|].
  cbn [strings.TrimLeftRev]. simpl in Hlen.
  destruct (strings.asciiSpace c1) eqn:E1.
  { destruct (IH (String.length s1) ltac:(lia) s1 ltac:(lia)) as [Hs [x Hx]].
    split; [done|]. exists (String c1 x). by rewrite Hx at 1. }
  destruct s1 as [|c2 s2].
  { split; [simpl; by rewrite E1 | by exists ""]. }
  simpl in Hlen. destruct (strings.space2 c2 c1) eqn:E2.
  { destruct (IH (String.length s2) ltac:(lia) s2 ltac:(lia)) as [Hs [x Hx]].
    split; [done|]. exists (String c1 (String c2 x)). by rewrite Hx at 1. }
  destruct s2 as [|c3 s3].
  { split; [simpl; by rewrite E1, E2 | by exists ""]. }
  simpl in Hlen. destruct (strings.space3 c3 c2 c1) eqn:E3.
  { destruct (IH (String.length s3) ltac:(lia) s3 ltac:(lia)) as [Hs [x Hx]].
    split; [done|]. exists (String c1 (String c2 (String c3 x))). by rewrite Hx at 1. }
  split; [simpl; by rewrite E1, E2, E3 | by exists ""].
Qed.

Lemma append_assoc_s (a b c : string) : (a ++ b) ++ c = a ++ (b ++ c).
Proof.
  induction a as [|x a IH]; [done|].
  change (String x ((a ++ b) ++ c) = String x (a ++ (b ++ c))).
  by rewrite IH.
Qed.

Lemma append_nil_r_s (a : string) : a ++ "" = a.
Proof.
  induction a as [|x a IH]; [done|].
  change (String x (a ++ "") = String x a). by rewrite IH.
Qed.

Lemma rev_string_onto_spec (s acc : string) :
  rev_string_onto s acc = rev_string s ++ acc.
Proof.
  unfold rev_string. revert acc.
  induction s as [|c s IH]; intros acc; simpl; [done|].
  rewrite (IH (String c acc)), (IH (String c "")).
  by rewrite append_assoc_s.
Qed.

Lemma rev_string_app (a b : string) :
  rev_string (a ++ b) = rev_string b ++ rev_string a.
Proof.
  induction a as [|c a IH]; simpl.
  - by rewrite append_nil_r_s.
  - unfold rev_string at 1 3. simpl.
    rewrite !rev_string_onto_spec, IH. by rewrite append_assoc_s.
Qed.

Lemma rev_string_involutive (s : string) : rev_string (rev_string s) = s.
Proof.
  induction s as [|c s IH]; [done|].
  unfold rev_string at 2. simpl. rewrite rev_string_onto_spec.
  rewrite rev_string_app, IH. reflexivity.
Qed.

Lemma startsWithSpace_app (a b : string) :
  startsWithSpace a = true -> startsWithSpace (a ++ b) = true.
Proof.
  destruct a as [|c1 [|c2 [|c3 a]]]; simpl; try done.
  - rewrite orb_false_r. by intros ->.
  - rewrite orb_false_r. intros E. destruct (strings.asciiSpace c1); [done|].
    simpl in *. by rewrite E.
Qed.

Lemma TrimSpace_idempotent (s : string) :
  strings.TrimSpace (strings.TrimSpace s) = strings.TrimSpace s.
Proof.
  unfold strings.TrimSpace.
  destruct (TrimLeft_spec (String.length s) s (le_n _)) as [Hl _].
  set (t := strings.TrimLeft s) in *.
  assert (Hfix : strings.TrimLeft (strings.TrimRight t) = strings.TrimRight t).
  { apply TrimLeft_fixed. unfold strings.TrimRight.
    destruct (TrimLeftRev_spec _ (rev_string t) (le_n _)) as [_ [x Hx]].
    apply (f_equal rev_string) in Hx.
    rewrite rev_string_involutive, rev_string_app in Hx.
    destruct (startsWithSpace (rev_string (strings.TrimLeftRev (rev_string t))))
      eqn:E; [|done].
    apply (startsWithSpace_app _ (rev_string x)) in E.
    rewrite <- Hx in E. congruence. }
  rewrite Hfix. unfold strings.TrimRight at 1.
  unfold strings.TrimRight at 1. rewrite rev_string_involutive.
  destruct (TrimLeftRev_spec _ (rev_string t) (le_n _)) as [Hr _].
  rewrite (TrimLeftRev_fixed _ Hr). reflexivity.
Qed.

(** The engine's messages are of the kind [trimmedNonEmpty] asks for:
    they begin with [K] and end with [g]. *)
Lemma engine_message_trimmedNonEmpty (ns field tag : string) :
  trimmedNonEmpty
    ("Key: '" ++ ns ++ "' Error:Field validation for '" ++ field
       ++ "' failed on the '" ++ tag ++ "' tag").
Proof.
  split; [discriminate|].
  unfold strings.TrimSpace. rewrite TrimLeft_fixed by reflexivity.
  unfold strings.TrimRight.
  rewrite <- (rev_string_involutive
                ("Key: '" ++ ns ++ "' Error:Field validation for '" ++ field
                   ++ "' failed on the '" ++ tag ++ "' tag")) at 2.
  f_equal. apply TrimLeftRev_fixed.
  rewrite !rev_string_app. reflexivity.
Qed.

(** X14: what [resolveParams] returns is either the fallback, or a string
    that is not empty and has no leading or trailing white space left;
    so the message [AddError] stores is a fixed point of [TrimSpace]. *)
Theorem X14_resolveParams_is_trimmed (fallback : string)
    (vals : list string) (e : vErrors) (F R : string) :
  (resolveParams fallback vals = fallback \/
   (resolveParams fallback vals <> "" /\
    strings.TrimSpace (resolveParams fallback vals) =
      resolveParams fallback vals)) /\
  (exists m, lookupMessage (AddError e F R vals) F R = Some m /\
             strings.TrimSpace m = m).
Proof.
  assert (Hgen : forall fb,
    resolveParams fb vals = fb \/
    (resolveParams fb vals <> "" /\
     strings.TrimSpace (resolveParams fb vals) = resolveParams fb vals)).
  { intros fb. unfold resolveParams. destruct vals as [|v0 vals']; [by left|].
    destruct (String.eqb_spec (strings.TrimSpace v0) ""); [by left|].
    right. split; [done | apply TrimSpace_idempotent]. }
  split; [apply Hgen|].
  exists (resolveParams "" vals).
  split; [apply lookupMessage_AddError_same|].
  destruct (Hgen "") as [->|[_ E]]; [reflexivity | exact E].
Qed.

(** X15: [AddTranslation] registers nothing, and leaves the validator as it
    is, exactly when no translator is configured or the rule name is blank;
    it never changes the prefix; and it treats a rule name and the same
    name without its surrounding white space alike. *)
Theorem X15_AddTranslation_edges `{GoFloat} {T : Type} `{!Translator T}
    (v : I18nValidator T) (locale R message : string)
    (options : list PluralOption) :
  let reg := AddTranslation v locale R message options in
  (calls reg = [] <-> translator v = None \/ strings.TrimSpace R = "") /\
  (calls reg = [] -> result reg = v) /\
  prefix (result reg) = prefix v /\
  AddTranslation v locale (strings.TrimSpace R) message options = reg.
Proof.
  cbv zeta. unfold AddTranslation. rewrite TrimSpace_idempotent.
  destruct (String.eqb_spec (strings.TrimSpace R) "") as [E|NE];
    destruct (translator v) as [tr|] eqn:Htr;
    try (split; [split; [auto | done] | by repeat split]).
  destruct (prefix v =? "")%string; cbn [bind invoke ret calls result fst snd app];
    (split; [split; [discriminate | by intros [?|?]] |]);
    (split; [discriminate|]); by split.
Qed.

(** ** funcs/funcs.go: the format checkers *)

Lemma byte_of_inj (a b : ascii) : byte_of a = byte_of b -> a = b.
Proof.
  unfold byte_of. intros E. apply Nat2Z.inj in E.
  rewrite <- (ascii_nat_embedding a), <- (ascii_nat_embedding b).
  by rewrite E.
Qed.

Lemma list_ascii_of_string_app (a b : string) :
  list_ascii_of_string (a ++ b) =
  (list_ascii_of_string a ++ list_ascii_of_string b)%list.
Proof.
  induction a as [|c a IH]; [done|].
  change (c :: list_ascii_of_string (a ++ b) =
          c :: (list_ascii_of_string a ++ list_ascii_of_string b)%list).
  by rewrite IH.
Qed.

Lemma allDigits_app (a b : string) :
  funcs.allDigits (a ++ b) = funcs.allDigits a && funcs.allDigits b.
Proof.
  unfold funcs.allDigits. rewrite list_ascii_of_string_app.
  apply forallb_app.
Qed.

Lemma length_append (a b : string) :
  String.length (a ++ b) = (String.length a + String.length b)%nat.
Proof.
  induction a as [|c a IH]; [done|].
  change (S (String.length (a ++ b)) = S (String.length a + String.length b)).
  by rewrite IH.
Qed.

(** X16: every mobile number the package accepts is also accepted as a
    phone number, and both are eleven ASCII digits. *)
Theorem X16_mobile_is_phone (s : string) :
  funcs.IsValidIranianMobile s = true ->
  funcs.IsValidIranianPhone s = true /\
  String.length s = 11%nat /\ funcs.allDigits s = true.
Proof.
  unfold funcs.IsValidIranianMobile, funcs.IsValidIranianPhone.
  destruct s as [|c0 [|c1 rest]]; try discriminate.
  intros Hm. apply andb_true_iff in Hm as [Hm Hd].
  apply andb_true_iff in Hm as [Hm Hlen].
  apply andb_true_iff in Hm as [E0 E1].
  rewrite E0, Hlen, Hd. apply Z.eqb_eq in E0, E1. apply Nat.eqb_eq in Hlen.
  rewrite E1. split; [reflexivity|].
  split; [simpl; by rewrite Hlen|].
  unfold funcs.allDigits in *. simpl. rewrite Hd.
  unfold funcs.isDigit. rewrite E0, E1. reflexivity.
Qed.

Lemma X16_witness :
  funcs.IsValidIranianPhone "09123456789" = true /\
  String.length "09123456789" = 11%nat /\
  funcs.allDigits "09123456789" = true.
Proof. apply (X16_mobile_is_phone "09123456789"). reflexivity. Defined.

(** X17: a valid national code is also a valid postal code and a valid
    birth-certificate number (ten ASCII digits). *)
Theorem X17_national_code_is_ten_digits (s : string) :
  funcs.IsValidIranianNationalCode s = true ->
  funcs.IsValidIranianPostalCode s = true /\
  funcs.IsValidIranianIDNumber s = true.
Proof.
  unfold funcs.IsValidIranianNationalCode, funcs.IsValidIranianPostalCode,
    funcs.IsValidIranianIDNumber.
  destruct (Nat.eqb_spec (String.length s) 10) as [Hlen|]; [|discriminate].
  cbn [negb]. destruct (funcs.matchTenDigits s) eqn:Hm; [|discriminate].
  intros _. split; [done|]. unfold funcs.matchTenDigits in Hm.
  apply andb_true_iff in Hm as [_ Hd]. rewrite Hlen.
  unfold funcs.allDigits. by rewrite Hd.
Qed.

Lemma X17_witness :
  funcs.IsValidIranianPostalCode "0499370899" = true /\
  funcs.IsValidIranianIDNumber "0499370899" = true.
Proof. apply (X17_national_code_is_ten_digits "0499370899"). reflexivity. Defined.

Lemma length_nine (s : string) :
  String.length s = 9%nat ->
  exists c0 c1 c2 c3 c4 c5 c6 c7 c8,
    s = String c0 (String c1 (String c2 (String c3 (String c4
          (String c5 (String c6 (String c7 (String c8 EmptyString)))))))).
Proof.
  intros Hlen.
  do 9 (destruct s as [|? s]; [discriminate Hlen|]).
  destruct s; [|discriminate Hlen].
  repeat eexists.
Qed.

Lemma byte_of_ascii_of_nat (n : nat) :
  (n < 256)%nat -> byte_of (ascii_of_nat n) = Z.of_nat n.
Proof. intros Hn. unfold byte_of. by rewrite nat_ascii_embedding. Qed.

(** X18: for every nine ASCII digits there is exactly one tenth byte that
    makes a valid national code, and that byte is a digit. *)
Theorem X18_national_code_check_digit_unique (p : string) :
  String.length p = 9%nat ->
  funcs.allDigits p = true ->
  exists c : ascii,
    funcs.isDigit c = true /\
    forall c' : ascii,
      funcs.IsValidIranianNationalCode (p ++ String c' EmptyString) = true
      <-> c' = c.
Proof.
  intros Hlen Hd.
  destruct (length_nine p Hlen) as (c0&c1&c2&c3&c4&c5&c6&c7&c8&->).
  set (p := String c0 (String c1 (String c2 (String c3 (String c4
          (String c5 (String c6 (String c7 (String c8 EmptyString))))))))).
  set (k := NationalCode.checkDigit (p ++ "0")).
  assert (Hk : 0 <= k <= 9).
  { unfold k, NationalCode.checkDigit.
    pose proof (Z.mod_pos_bound (NationalCode.weightedSum (p ++ "0")) 11
                  ltac:(lia)) as Hr.
    destruct (Z.ltb_spec (NationalCode.weightedSum (p ++ "0") mod 11) 2); lia. }
  exists (ascii_of_nat (Z.to_nat (48 + k))).
  assert (Hb : byte_of (ascii_of_nat (Z.to_nat (48 + k))) = 48 + k).
  { rewrite byte_of_ascii_of_nat by lia. lia. }
  split; [apply isDigit_range; lia|].
  intros c'. rewrite national_code_refines.
  unfold NationalCode.valid, NationalCode.tenDigits.
  assert (Hsame : NationalCode.checkDigit (p ++ String c' "") = k)
    by reflexivity.
  rewrite Hsame.
  change (NationalCode.digitAt (p ++ String c' "") 9) with (byte_of c' - 48).
  split.
  - intros [_ E]. apply byte_of_inj. lia.
  - intros ->. rewrite Hb. split; [|lia]. split; [done|].
    unfold p. cbn [String.append list_ascii_of_string].
    unfold funcs.allDigits in Hd. cbn [list_ascii_of_string forallb] in Hd.
    rewrite !andb_true_iff, !isDigit_range in Hd.
    repeat (apply Forall_cons; split; [tauto|]).
    apply Forall_cons. split; [lia | constructor].
Qed.

Lemma X18_witness :
  exists c : ascii,
    funcs.isDigit c = true /\
    forall c' : ascii,
      funcs.IsValidIranianNationalCode ("049937089" ++ String c' EmptyString)
        = true <-> c' = c.
Proof.
  apply (X18_national_code_check_digit_unique "049937089"); reflexivity.
Defined.

(** *** The bank card number *)

Lemma luhnLoop_step (s : string) (i : nat) (sum : Z) (alt : bool) :
  funcs.luhnLoop s (S i) sum alt =
  funcs.luhnLoop s i
    (sum + luhnDigit alt (strconv.Atoi (funcs.byteAt s i))) (negb alt).
Proof. reflexivity. Qed.

Lemma luhnLoop_sum (s : string) (k : nat) (sum : Z) (alt : bool) :
  funcs.luhnLoop s k sum alt = sum + funcs.luhnLoop s k 0 alt.
Proof.
  revert sum alt. induction k as [|k IH]; intros sum alt.
  - simpl. lia.
  - rewrite !luhnLoop_step, IH.
    rewrite (IH (0 + _)). lia.
Qed.

Lemma get_app_l (pre t : string) (i : nat) :
  (i < String.length pre)%nat -> String.get i (pre ++ t) = String.get i pre.
Proof.
  revert i. induction pre as [|c pre IH]; intros i Hi; simpl in Hi; [lia|].
  destruct i as [|i]; [done|]. apply IH. lia.
Qed.

Lemma get_app_r (pre t : string) (j : nat) :
  String.get (String.length pre + j) (pre ++ t) = String.get j t.
Proof. induction pre as [|c pre IH]; [done|]. exact IH. Qed.

Lemma luhnLoop_prefix (pre t : string) (k : nat) (sum : Z) (alt : bool) :
  (k <= String.length pre)%nat ->
  funcs.luhnLoop (pre ++ t) k sum alt = funcs.luhnLoop pre k sum alt.
Proof.
  revert sum alt. induction k as [|k IH]; intros sum alt Hk; [done|].
  rewrite !luhnLoop_step. unfold funcs.byteAt.
  rewrite get_app_l by lia. apply IH. lia.
Qed.

Lemma luhnLoop_split (pre t : string) (k : nat) (sum : Z) (alt : bool) :
  funcs.luhnLoop (pre ++ t) (String.length pre + k) sum alt =
  funcs.luhnLoop pre (String.length pre) (funcs.luhnLoop t k sum alt)
    (xorb alt (Nat.odd k)).
Proof.
  revert sum alt. induction k as [|k IH]; intros sum alt.
  - rewrite Nat.add_0_r, luhnLoop_prefix by lia. simpl.
    by rewrite xorb_false_r.
  - rewrite Nat.add_succ_r, !luhnLoop_step. unfold funcs.byteAt.
    rewrite get_app_r, IH. f_equal.
    rewrite Nat.odd_succ, <- Nat.negb_odd. by destruct alt, (Nat.odd k).
Qed.

(** The Luhn sum of a number, with one digit singled out. *)
Lemma luhnLoop_one_digit (pre post : string) (a : ascii) :
  funcs.luhnLoop (pre ++ String a post)
    (String.length (pre ++ String a post)) 0 false =
  funcs.luhnLoop post (String.length post) 0 false
  + luhnDigit (Nat.odd (String.length post))
      (strconv.Atoi (String a EmptyString))
  + funcs.luhnLoop pre (String.length pre) 0
      (negb (Nat.odd (String.length post))).
Proof.
  rewrite length_append. rewrite luhnLoop_split.
  change (String a post) with (String a EmptyString ++ post).
  change (String.length (String a "" ++ post))
    with (String.length (String a "") + String.length post)%nat.
  rewrite luhnLoop_split.
  rewrite (luhnLoop_sum pre). cbn [String.length].
  rewrite luhnLoop_step. cbn [funcs.luhnLoop funcs.byteAt String.get].
  rewrite Nat.odd_succ, <- Nat.negb_odd, !xorb_false_l. lia.
Qed.

Lemma luhnDigit_range (alt : bool) (n : Z) :
  0 <= n <= 9 -> 0 <= luhnDigit alt n <= 9.
Proof.
  intros Hn. unfold luhnDigit. destruct alt; [|done]. cbv zeta.
  destruct (Z.gtb_spec (n * 2) 9); lia.
Qed.

Lemma luhnDigit_inj (alt : bool) (n m : Z) :
  0 <= n <= 9 -> 0 <= m <= 9 ->
  luhnDigit alt n = luhnDigit alt m -> n = m.
Proof.
  intros Hn Hm. unfold luhnDigit. destruct alt; [|done]. cbv zeta.
  destruct (Z.gtb_spec (n * 2) 9), (Z.gtb_spec (m * 2) 9); lia.
Qed.

(** X19: the bank-card check detects every single wrong digit: if a card
    number is accepted, the number obtained by replacing any one of its
    bytes by a different byte is rejected. *)
Theorem X19_bank_card_single_digit_error (pre post : string) (a b : ascii) :
  a <> b ->
  funcs.IsValidIranianBankCard (pre ++ String a post) = true ->
  funcs.IsValidIranianBankCard (pre ++ String b post) = false.
Proof.
  intros Hab. unfold funcs.IsValidIranianBankCard.
  destruct (funcs.matchSixteenDigits (pre ++ String a post)) eqn:Ma;
    [|discriminate].
  destruct (funcs.matchSixteenDigits (pre ++ String b post)) eqn:Mb;
    [|done].
  cbn [negb]. rewrite !luhnLoop_one_digit.
  unfold funcs.matchSixteenDigits in Ma, Mb.
  apply andb_true_iff in Ma as [_ Da]. apply andb_true_iff in Mb as [_ Db].
  rewrite allDigits_app in Da, Db.
  apply andb_true_iff in Da as [_ Da]. apply andb_true_iff in Db as [_ Db].
  unfold funcs.allDigits in Da, Db.
  cbn [list_ascii_of_string forallb] in Da, Db.
  apply andb_true_iff in Da as [Da _]. apply andb_true_iff in Db as [Db _].
  rewrite !Atoi_digit by assumption.
  apply isDigit_range in Da, Db.
  set (alt := Nat.odd (String.length post)).
  set (Q := funcs.luhnLoop post (String.length post) 0 false).
  set (P := funcs.luhnLoop pre (String.length pre) 0 (negb alt)).
  pose proof (luhnDigit_range alt (byte_of a - 48) ltac:(lia)) as Ra.
  pose proof (luhnDigit_range alt (byte_of b - 48) ltac:(lia)) as Rb.
  intros Ea. apply Z.eqb_eq in Ea. apply Z.eqb_neq. intros Eb.
  apply Z.rem_divide in Ea; [|lia]. apply Z.rem_divide in Eb; [|lia].
  destruct Ea as [x Ex], Eb as [y Ey].
  assert (E : luhnDigit alt (byte_of a - 48) = luhnDigit alt (byte_of b - 48))
    by lia.
  apply luhnDigit_inj in E; [|lia|lia].
  apply Hab, byte_of_inj. lia.
Qed.

Lemma X19_witness :
  funcs.IsValidIranianBankCard ("41111111" ++ String "2"%char "1111111")
    = false.
Proof.
  apply (X19_bank_card_single_digit_error "41111111" "1111111"
           "1"%char "2"%char).
  - discriminate.
  - vm_compute. reflexivity.
Defined.

(** *** The IBAN *)

Lemma digitsValue_digits (s : string) (acc : Z) :
  funcs.allDigits s = true ->
  big.digitsValue s acc =
    Some (fold_left (fun acc c => acc * 10 + (byte_of c - 48))
            (list_ascii_of_string s) acc).
Proof.
  revert acc. induction s as [|c s IH]; intros acc Hd; [done|].
  unfold funcs.allDigits in Hd. cbn [list_ascii_of_string forallb] in Hd.
  apply andb_true_iff in Hd as [Hc Hd].
  cbn [big.digitsValue list_ascii_of_string fold_left]. unfold funcs.isDigit in Hc.
  cbv zeta. rewrite Hc. by apply IH.
Qed.

Lemma fold_decimal_acc (l : list ascii) (acc : Z) :
  fold_left (fun acc c => acc * 10 + (byte_of c - 48)) l acc =
  acc * 10 ^ Z.of_nat (length l)
  + fold_left (fun acc c => acc * 10 + (byte_of c - 48)) l 0.
Proof.
  revert acc. induction l as [|c l IH]; intros acc.
  - simpl. lia.
  - cbn [fold_left length]. rewrite IH, (IH (0 * 10 + _)).
    rewrite Nat2Z.inj_succ, Z.pow_succ_r by lia. lia.
Qed.

Lemma decimal_app (a b : string) :
  decimal (a ++ b) = decimal a * 10 ^ Z.of_nat (String.length b) + decimal b.
Proof.
  unfold decimal. rewrite list_ascii_of_string_app, fold_left_app.
  rewrite fold_decimal_acc. f_equal. f_equal. f_equal. f_equal.
  clear a. induction b as [|c b IH]; [done|]. simpl. by rewrite IH.
Qed.

Lemma SetString_digits (s : string) :
  s <> "" -> funcs.allDigits s = true ->
  big.SetString s = Some (decimal s).
Proof.
  intros Hne Hd. destruct s as [|c s]; [done|].
  assert (Hc : funcs.isDigit c = true).
  { unfold funcs.allDigits in Hd. cbn [list_ascii_of_string forallb] in Hd.
    by apply andb_true_iff in Hd as [Hc _]. }
  apply isDigit_range in Hc. unfold big.SetString.
  destruct (Z.eqb_spec (byte_of c) 43); [lia|].
  destruct (Z.eqb_spec (byte_of c) 45); [lia|].
  unfold big.unsignedValue. by apply digitsValue_digits.
Qed.

Lemma prefix_IR_self (d : string) : String.prefix "IR" ("IR" ++ d) = true.
Proof. destruct d; vm_compute; reflexivity. Qed.

(** The check of an [IR]-prefixed string, as arithmetic. *)
Lemma IBAN_prefixed (d : string) :
  funcs.IsValidIranianIBAN ("IR" ++ d) = true <->
  String.length d = 24%nat /\ funcs.allDigits d = true /\
  (decimal d * 10000 + 1827) mod 97 = 1.
Proof.
  unfold funcs.IsValidIranianIBAN.
  rewrite prefix_IR_self. cbn [negb].
  change (funcs.matchIBAN ("IR" ++ d))
    with ((String.length d =? 24)%nat && funcs.allDigits d).
  change (funcs.dropTwo ("IR" ++ d)) with d.
  destruct (Nat.eqb_spec (String.length d) 24) as [Hlen|Hlen];
    [|split; [discriminate | tauto]].
  destruct (funcs.allDigits d) eqn:Hd;
    [|split; [discriminate | intros (_ & ? & _); discriminate]].
  cbn [andb negb].
  rewrite SetString_digits.
  - rewrite decimal_app. change (decimal "1827") with 1827.
    change (10 ^ Z.of_nat (String.length "1827")) with 10000.
    rewrite Z.eqb_eq. tauto.
  - destruct d; [discriminate Hlen | discriminate].
  - rewrite allDigits_app, Hd. reflexivity.
Qed.

(** X20: the [IR] prefix is optional, and the check is arithmetic: a string
    without the prefix is judged as the same string with it, and a prefixed
    string is accepted exactly when 24 ASCII digits follow the prefix and
    the number they spell, followed by 1827, leaves remainder 1 modulo 97.
    The two check digits stay in front; they are not moved behind the
    country code. *)
Theorem X20_IBAN_check (d : string) :
  (String.prefix "IR" d = false ->
   funcs.IsValidIranianIBAN d = funcs.IsValidIranianIBAN ("IR" ++ d)) /\
  (funcs.IsValidIranianIBAN ("IR" ++ d) = true <->
   String.length d = 24%nat /\ funcs.allDigits d = true /\
   (decimal d * 10000 + 1827) mod 97 = 1).
Proof.
  split; [|apply IBAN_prefixed].
  intros Hp. unfold funcs.IsValidIranianIBAN.
  rewrite Hp, prefix_IR_self. reflexivity.
Qed.

Lemma divide_97_cancel_10 (x : Z) : (97 | x * 10) -> (97 | x).
Proof.
  intros [k Hk]. exists (68 * k - 7 * x). lia.
Qed.

Lemma divide_97_cancel_pow (x : Z) (n : nat) :
  (97 | x * 10 ^ Z.of_nat n) -> (97 | x).
Proof.
  induction n as [|n IH]; intros Hd.
  - by rewrite Z.mul_1_r in Hd.
  - apply IH. apply divide_97_cancel_10.
    rewrite Nat2Z.inj_succ, Z.pow_succ_r in Hd by lia.
    by replace (x * 10 ^ Z.of_nat n * 10)
      with (x * (10 * 10 ^ Z.of_nat n)) by lia.
Qed.

(** X21: the IBAN check detects every single wrong digit: if a prefixed
    IBAN is accepted, replacing any one byte after the prefix by a
    different byte gives a string that is rejected. *)
Theorem X21_IBAN_single_digit_error (pre post : string) (a b : ascii) :
  a <> b ->
  funcs.IsValidIranianIBAN ("IR" ++ pre ++ String a post) = true ->
  funcs.IsValidIranianIBAN ("IR" ++ pre ++ String b post) = false.
Proof.
  intros Hab Ha. apply IBAN_prefixed in Ha as (La & Da & Ma).
  apply not_true_iff_false. intros Hb.
  apply IBAN_prefixed in Hb as (Lb & Db & Mb).
  rewrite allDigits_app in Da, Db.
  apply andb_true_iff in Da as [_ Da]. apply andb_true_iff in Db as [_ Db].
  unfold funcs.allDigits in Da, Db.
  cbn [list_ascii_of_string forallb] in Da, Db.
  apply andb_true_iff in Da as [Da _]. apply andb_true_iff in Db as [Db _].
  apply isDigit_range in Da, Db.
  rewrite decimal_app in Ma, Mb.
  change (String a post) with (String a "" ++ post) in Ma.
  change (String b post) with (String b "" ++ post) in Mb.
  rewrite decimal_app in Ma, Mb.
  change (decimal (String a "")) with (0 * 10 + (byte_of a - 48)) in Ma.
  change (decimal (String b "")) with (0 * 10 + (byte_of b - 48)) in Mb.
  change (String.length (String a "" ++ post))
    with (S (String.length post)) in Ma.
  change (String.length (String b "" ++ post))
    with (S (String.length post)) in Mb.
  set (n := String.length post) in *.
  set (X := decimal pre * 10 ^ Z.of_nat (S n)) in *.
  set (Y := decimal post) in *.
  assert (Hdiv : (97 | (byte_of a - byte_of b) * 10 ^ Z.of_nat (n + 4))).
  { rewrite Nat2Z.inj_add, Z.pow_add_r by lia.
    change (10 ^ Z.of_nat 4) with 10000.
    apply Z.mod_divide; [lia|].
    replace ((byte_of a - byte_of b) * (10 ^ Z.of_nat n * 10000))
      with (((X + ((0 * 10 + (byte_of a - 48)) * 10 ^ Z.of_nat n + Y)) * 10000
             + 1827)
            - ((X + ((0 * 10 + (byte_of b - 48)) * 10 ^ Z.of_nat n + Y)) * 10000
               + 1827)) by lia.
    rewrite Zminus_mod, Ma, Mb. reflexivity. }
  apply divide_97_cancel_pow in Hdiv. destruct Hdiv as [k Hk].
  apply Hab, byte_of_inj. lia.
Qed.

Lemma X21_witness :
  funcs.IsValidIranianIBAN ("IR" ++ "82054010518002127311300" ++ String "8"%char "")
    = false.
Proof.
  apply (X21_IBAN_single_digit_error "82054010518002127311300" ""
           "7"%char "8"%char).
  - discriminate.
  - vm_compute. reflexivity.
Defined.

Lemma X20_witness :
  funcs.IsValidIranianIBAN "820540105180021273113007" =
  funcs.IsValidIranianIBAN ("IR" ++ "820540105180021273113007").
Proof.
  apply (proj1 (X20_IBAN_check "820540105180021273113007")). reflexivity.
Defined.

(** ** The order of the records *)

Lemma AddErrors_Permutation (cs cs' : list (string * string * list string))
    (e : vErrors) :
  NoDup (cs.*1) -> cs ≡ₚ cs' -> AddErrors e cs = AddErrors e cs'.
Proof.
  intros Hnd Hp. revert e Hnd.
  induction Hp as [|x l l' Hp IH|x y l|l l' l'' Hp1 IH1 Hp2 IH2];
    intros e Hnd.
  - reflexivity.
  - simpl in Hnd. apply NoDup_cons in Hnd as [_ Hnd].
    unfold AddErrors in *. simpl. by apply IH.
  - simpl in Hnd. apply NoDup_cons in Hnd as [Hx _].
    unfold AddErrors. simpl. f_equal.
    destruct x as [[Fx Rx] mx], y as [[Fy Ry] my]. simpl in *.
    apply AddError_comm. intros E. apply Hx. rewrite E. apply list_elem_of_here.
  - rewrite IH1 by done. apply IH2.
    assert (Hp' : l.*1 ≡ₚ l'.*1) by (by apply fmap_Permutation).
    by rewrite <- Hp'.
Qed.

(** X22: the aggregate of the struct pipeline does not depend on the order
    in which the engine reports the violations, as long as no field is
    reported twice with the same rule. *)
Theorem X22_order_of_records_irrelevant `{GoFloat} {T : Type}
    `{!Translator T} (v : I18nValidator T) (locale : string) (value : Value)
    (errs errs' : list FieldError.t) :
  NoDup ((fun r => (FieldError.Field r, FieldError.Tag r)) <$> errs) ->
  errs ≡ₚ errs' ->
  result (parseStructErrors v locale value (Some (ValidationErrors errs))) =
  result (parseStructErrors v locale value (Some (ValidationErrors errs'))).
Proof.
  intros Hnd Hp. rewrite !parseStructErrors_AddErrors.
  apply AddErrors_Permutation; [|by apply fmap_Permutation].
  rewrite <- list_fmap_compose. exact Hnd.
Qed.

Section OrderWitness.
Import Fixture.

Lemma X22_witness :
  result (parseStructErrors (NewValidator [WithTranslator (Some emptyTable) ""])
            "en" plainValue
            (Some (ValidationErrors [required "Name"; required "Age"]))) =
  result (parseStructErrors (NewValidator [WithTranslator (Some emptyTable) ""])
            "en" plainValue
            (Some (ValidationErrors [required "Age"; required "Name"]))).
Proof.
  apply (X22_order_of_records_irrelevant
           (NewValidator [WithTranslator (Some emptyTable) ""]) "en" plainValue
           [required "Name"; required "Age"]
           [required "Age"; required "Name"]).
  - apply NoDup_cons. split.
    + intros Hin. apply list_elem_of_singleton in Hin. discriminate Hin.
    + apply NoDup_singleton.
  - apply perm_swap.
Defined.
End OrderWitness.
